(** * ConvMixin.conv: translating a convolution node into backend operations

    A shallow embedding of [ConvMixin.conv]
    (tools/onnx_tf/handlers/backend/conv_mixin.py).  The translator is graph
    construction code: every [tf.*] call creates one symbolic operation and
    hands back a tensor handle.  The embedding keeps both views:
    - the handle that is returned is a term of type [tensor], recording the
      data flow of the constructed graph;
    - the operations are logged, in program order, by a small writer and
      exception monad [M], so that what has been emitted when an exception
      is raised is part of the result of a run. *)

From Stdlib Require Import ZArith String Ascii.
From stdpp Require Import base list gmap strings.

Set Warnings "-register-all".

Local Open Scope string_scope.
Local Open Scope list_scope.
Local Open Scope Z_scope.

(** ** Python values *)

(** A dimension of a static shape: an [int], or [None] when unknown. *)
Definition dim := option Z.

(** The exceptions [conv] can raise.  The conditions of the specification are
    ShapeMismatch ([AssertionError], line 49), InvalidAttribute ([ValueError],
    line 83), UnsupportedOnBackend ([OpUnsupported], lines 89 and 91),
    IncompatibleDilation ([RuntimeError], line 138) and UnimplementedRank
    ([NotImplementedError], lines 186 and 260); the other four are the
    interpreter's own. *)
Inductive exception :=
| AssertionError
| ValueError
| OpUnsupported
| RuntimeError
| NotImplementedError
| IndexError
| KeyError
| TypeError
| UnboundLocalError.

(** The backend operations a run can emit. *)
Inductive op_kind :=
| OpTranspose
| OpPad
| OpSplit
| OpConvolution
| OpConvTranspose
| OpConcat
| OpSlice
| OpAdd
| OpBroadcast
| OpShape
| OpStridedSlice
| OpPack.

(** ** The translation monad *)

Record M (A : Type) := Run {
  emitted : list op_kind;
  outcome : exception + A
}.
Arguments Run {A} _ _.
Arguments emitted {A} _.
Arguments outcome {A} _.

Definition raise {A} (e : exception) : M A := Run [] (inl e).
Definition emit (k : op_kind) : M unit := Run [k] (inr tt).

#[global] Instance M_ret : MRet M := λ A a, Run [] (inr a).
#[global] Instance M_bind : MBind M := λ A B f m,
  match outcome m with
  | inl e => Run (emitted m) (inl e)
  | inr a => Run (emitted m ++ emitted (f a)) (outcome (f a))
  end.

(** ** Python strings and lists *)

Fixpoint find_from (s : string) (c : ascii) (i : Z) : Z :=
  match s with
  | EmptyString => -1
  | String a s' => if Ascii.eqb a c then i else find_from s' c (i + 1)
  end.

(** [s.find(c)] for a one-character [c]: the first index, or -1. *)
Definition find (s : string) (c : ascii) : Z := find_from s c 0.

Definition chars (s : string) : list ascii := list_ascii_of_string s.

(** [l[i]] as a value: negative indices count from the end. *)
Definition py_nth {A} (l : list A) (i : Z) : option A :=
  let n := Z.of_nat (length l) in
  let j := if i <? 0 then i + n else i in
  if (0 <=? j) && (j <? n) then l !! Z.to_nat j else None.

(** [l[i]], raising [IndexError] out of range. *)
Definition getitem {A} (l : list A) (i : Z) : M A :=
  match py_nth l i with
  | Some a => mret a
  | None => raise IndexError
  end.

(** [l[i] = v]. *)
Definition setitem {A} (l : list A) (i : Z) (v : A) : M (list A) :=
  let n := Z.of_nat (length l) in
  let j := if i <? 0 then i + n else i in
  if (0 <=? j) && (j <? n) then mret (<[Z.to_nat j := v]> l) else raise IndexError.

(** [l.insert(i, v)]: the index is clamped to the list. *)
Definition py_insert {A} (i : Z) (v : A) (l : list A) : list A :=
  let n := Z.of_nat (length l) in
  let j := if i <? 0 then Z.max 0 (i + n) else Z.min i n in
  take (Z.to_nat j) l ++ v :: drop (Z.to_nat j) l.

(** [l[:n]]. *)
Definition py_prefix {A} (n : Z) (l : list A) : list A :=
  if n <? 0 then take (length l - Z.to_nat (- n)) l else take (Z.to_nat n) l.

(** [l[-2:]]. *)
Definition last_two {A} (l : list A) : list A := drop (length l - 2) l.

(** [range(n)] and [range(a, b)]. *)
Definition range (n : Z) : list Z := Z.of_nat <$> seq 0 (Z.to_nat n).
Definition range_from (a b : Z) : list Z := (λ k, a + Z.of_nat k) <$> seq 0 (Z.to_nat (b - a)).

(** [l * n]: a negative count gives the empty list. *)
Definition times {A} (l : list A) (n : Z) : list A := mjoin (replicate (Z.to_nat n) l).

(** [enumerate(l)]. *)
Definition enumerate {A} (l : list A) : list (Z * A) := imap (λ i a, (Z.of_nat i, a)) l.

Definition list_Z_eqb (a b : list Z) : bool := bool_decide (a = b).
Definition list_dim_eqb (a b : list dim) : bool := bool_decide (a = b).

(** Arithmetic on a dimension raises [TypeError] when it is [None]. *)
Definition int_of (d : dim) : M Z :=
  match d with
  | Some z => mret z
  | None => raise TypeError
  end.

(** ** Tensor handles *)

(** A tensor owned by the caller: all the translator can ask is its static
    shape. *)
Record handle := Handle {
  name : string;
  shape : list dim
}.

Inductive conv_func :=
| conv1d_transpose
| conv2d_transpose
| conv3d_transpose.

(** [strides_full] is a list, except for rank 1 where it is [strides[0]]. *)
Inductive strides_arg :=
| StridesList (l : list Z)
| StridesInt (z : Z).

Inductive tensor :=
| Input (h : handle)
| Transpose (a : tensor) (perm : list Z)
| Pad (a : tensor) (paddings : list (list Z))
| PaddingAsOp (a : tensor) (pads : list Z)
| SplitOut (value : tensor) (num axis : Z) (k : nat)
| Convolution (x filter : tensor) (padding : string)
    (strides dilation_rate : list Z) (data_format : string)
| ConvTranspose (f : conv_func) (x filter : tensor) (output_shape : shape_arg)
    (strides : strides_arg) (padding data_format : string)
| Concat (values : list tensor) (axis : Z)
| Slice (a : tensor) (begin : list Z) (size : shape_arg)
| Add (a b : tensor)
| ExplicitBroadcast (x y : tensor) (axis : Z)
(** A shape argument is a Python list of dimensions, or the [tf.stack] of
    such a list in which entries were replaced by runtime values. *)
with shape_arg :=
| ShapeList (l : list dim)
| Stack (l : list shape_elt)
with shape_elt :=
| Lit (d : dim)
| ShapeAt (x : tensor) (i : Z).

Definition static_dim (e : shape_elt) : dim :=
  match e with
  | Lit d => d
  | ShapeAt _ _ => None
  end.

Definition static_shape (s : shape_arg) : list dim :=
  match s with
  | ShapeList l => l
  | Stack l => static_dim <$> l
  end.

Definition padded_dim (d : dim) (row : list Z) : dim :=
  match d, row with
  | Some z, [b; e] => Some (z + b + e)
  | _, _ => None
  end.

(** [t.get_shape().as_list()]: the static shape the backend infers, for the
    operations whose shape the translator asks for (its inputs, the permuted
    weights, the transposed convolution and its padded result). *)
Fixpoint get_shape (t : tensor) : list dim :=
  match t with
  | Input h => shape h
  | Transpose a perm => (λ p, default None (py_nth (get_shape a) p)) <$> perm
  | Pad a paddings => zip_with padded_dim (get_shape a) paddings
  | ConvTranspose _ _ _ output_shape _ _ _ => static_shape output_shape
  | _ => []
  end.

(** ** Backend primitives *)

Module tf.

Definition transpose (a : tensor) (perm : list Z) : M tensor :=
  emit OpTranspose;; mret (Transpose a perm).

Definition pad (a : tensor) (paddings : list (list Z)) : M tensor :=
  emit OpPad;; mret (Pad a paddings).

Definition split (value : tensor) (num axis : Z) : M (list tensor) :=
  emit OpSplit;; mret (SplitOut value num axis <$> seq 0 (Z.to_nat num)).

Definition nn_convolution (x filter : tensor) (padding : string)
    (strides dilation_rate : list Z) (data_format : string) : M tensor :=
  emit OpConvolution;;
  mret (Convolution x filter padding strides dilation_rate data_format).

Definition conv_transpose (f : conv_func) (x filter : tensor)
    (output_shape : shape_arg) (strides : strides_arg)
    (padding data_format : string) : M tensor :=
  emit OpConvTranspose;;
  mret (ConvTranspose f x filter output_shape strides padding data_format).

Definition concat (values : list tensor) (axis : Z) : M tensor :=
  emit OpConcat;; mret (Concat values axis).

Definition slice (a : tensor) (begin : list Z) (size : shape_arg) : M tensor :=
  emit OpSlice;; mret (Slice a begin size).

Definition add (a b : tensor) : M tensor :=
  emit OpAdd;; mret (Add a b).

(** [tf.shape(x)[i]]. *)
Definition shape_at (x : tensor) (i : Z) : M shape_elt :=
  emit OpShape;; emit OpStridedSlice;; mret (ShapeAt x i).

Definition stack (l : list shape_elt) : M shape_arg :=
  emit OpPack;; mret (Stack l).

End tf.

(** Modelled from the spec: [PadMixin.get_padding_as_op] (pad_mixin.py) is
    not among the sources; the explicit padding is materialized as a
    standalone pad operation on the input. *)
Definition get_padding_as_op (x : tensor) (pads : list Z) : M tensor :=
  emit OpPad;; mret (PaddingAsOp x pads).

(** Modelled from the spec: [BroadcastMixin.explicit_broadcast]
    (broadcast_mixin.py) is not among the sources; the bias is
    broadcast-expanded toward the channel axis [axis], with the first element
    of [inputs] as the reference operand. *)
Definition explicit_broadcast (x y : tensor) (axis : Z) : M tensor :=
  emit OpBroadcast;; mret (ExplicitBroadcast x y axis).

(** Modelled from the spec: [exception.OP_UNSUPPORTED_EXCEPT]
    (onnx_tf/common) is not among the sources; it signals that the operator
    is unsupported on this backend. *)
Definition OP_UNSUPPORTED_EXCEPT {A} (op framework : string) : M A :=
  raise OpUnsupported.

(** The utilities of [onnx_tf.common] that [conv] consumes: the
    device-capability query and the two layout utilities.  The layouts of a
    rank are a storage and a compute format; [get_data_format] has none for
    the ranks at which the utility raises IndexError. *)
Record backend := Backend {
  supports_device : string → bool;
  get_data_format : Z → option (string * string);
  get_perm_from_formats : string → string → list Z
}.

(** Line 34: the call [get_data_format(x_rank)]. *)
Definition data_formats (B : backend) (x_rank : Z) : M (string * string) :=
  match get_data_format B x_rank with
  | Some formats => mret formats
  | None => raise IndexError
  end.

(** ** Nodes *)

(** [node.attrs]: every attribute is optional. *)
Record attributes := Attributes {
  attr_kernel_shape : option (list Z);
  attr_strides : option (list Z);
  attr_dilations : option (list Z);
  attr_pads : option (list Z);
  attr_group : option Z;
  attr_auto_pad : option string;
  attr_output_shape : option (list Z);
  attr_output_padding : option (list Z)
}.

Record node := Node {
  inputs : list string;
  attrs : attributes
}.

(** [input_dict[node.inputs[i]]]. *)
Definition input (input_dict : gmap string handle) (n : node) (i : Z) : M tensor :=
  key ← getitem (inputs n) i;
  match input_dict !! key with
  | Some h => mret (Input h)
  | None => raise KeyError
  end.

Definition PAD_TF_INCOMPATIBLE : string := "PAD_TF_INCOMPATIBLE".

(** ** The translator *)

Definition auto_pad_is (n : node) (s : string) : bool :=
  match attr_auto_pad (attrs n) with
  | Some a => String.eqb a s
  | None => false
  end.

(** [d in ["N", "C"]]. *)
Definition batch_or_channel (d : ascii) : bool :=
  Ascii.eqb d "N" || Ascii.eqb d "C".

(** The local variables of a call that are bound once, by line 62. *)
Record frame := Frame {
  x_shape : list dim;
  spatial_size : Z;
  support_cuda : bool;
  storage_format : string;
  compute_format : string;
  compute_c_idx : Z;
  spatial_format : string;
  weights : tensor;
  kernel_shape : list dim;
  dilations : list Z;
  strides : list Z;
  pads : list Z
}.

(** Lines 47-56: [kernel_shape], checked against the weights when the
    attribute is present. *)
Definition resolve_kernel_shape (n : node) (in_weights : tensor) : M (list dim) :=
  match attr_kernel_shape (attrs n) with
  | Some kernel_shape =>
      if list_dim_eqb (drop 2 (get_shape in_weights)) (Some <$> kernel_shape)
      then mret (Some <$> kernel_shape)
      else raise AssertionError
  | None => mret (drop 2 (get_shape in_weights))
  end.

(** Lines 64-91: the padding mode, and the input with the explicit [pads]
    applied when the mode asks for it. *)
Definition derive_pad_mode (n : node) (transpose : bool) (fr : frame) (x : tensor)
    : M (tensor * string) :=
  let notset : M (tensor * string) :=
    if negb transpose then
      x ← (if negb (list_Z_eqb (pads fr) (times [0; 0] (spatial_size fr)))
           then get_padding_as_op x (pads fr) else mret x);
      mret (x, "VALID")
    else mret (x, "NOTSET") in
  '(x, pad_mode) ←
    match attr_auto_pad (attrs n) with
    | None => notset
    | Some auto_pad =>
        if String.eqb auto_pad "NOTSET" then notset
        else if String.eqb auto_pad "SAME_UPPER" then mret (x, "SAME")
        else if String.eqb auto_pad "VALID" then mret (x, "VALID")
        else if String.eqb auto_pad "SAME_LOWER" then
          if transpose then mret (x, PAD_TF_INCOMPATIBLE) else mret (x, "SAME")
        else raise ValueError
    end;
  if String.eqb pad_mode PAD_TF_INCOMPATIBLE then
    if transpose
    then OP_UNSUPPORTED_EXCEPT "ConvTranspose with auto_pad `SAME_LOWER`" "Tensorflow"
    else OP_UNSUPPORTED_EXCEPT "Conv with auto_pad `SAME_LOWER`" "Tensorflow"
  else mret (x, pad_mode).

(** The test of lines 96 and 278. *)
Definition same_lower_strided (n : node) (fr : frame) : bool :=
  auto_pad_is n "SAME_LOWER" && negb (list_Z_eqb (strides fr) [1; 1]).

(** Lines 95-124: one convolution, when [group] is 1 and the node is not
    transposed. *)
Definition fast_path (B : backend) (n : node) (input_dict : gmap string handle)
    (fr : frame) (x : tensor) (pad_mode : string) : M (list tensor) :=
  '(x, pad_mode) ←
    (if same_lower_strided n fr then
       let pad := [1; 1] in
       x ← (if support_cuda fr then tf.pad x [[0; 0]; [0; 0]; pad; pad]
            else
              x ← tf.pad x [[0; 0]; pad; pad; [0; 0]];
              tf.transpose x
                (get_perm_from_formats B (storage_format fr) (compute_format fr)));
       mret (x, "VALID")
     else mret (x, pad_mode));
  output ← tf.nn_convolution x (weights fr) pad_mode (strides fr) (dilations fr)
             (compute_format fr);
  output ←
    (if (length (inputs n) =? 2)%nat then
       if negb (support_cuda fr)
       then tf.transpose output
              (get_perm_from_formats B (compute_format fr) (storage_format fr))
       else mret output
     else
       bias ← input input_dict n 2;
       bias ← explicit_broadcast x bias (compute_c_idx fr);
       if support_cuda fr then tf.add output bias
       else
         output ← tf.add output bias;
         tf.transpose output
           (get_perm_from_formats B (compute_format fr) (storage_format fr)));
  mret [output].

(** Lines 163-165. *)
Definition handle_dynamic_batch_size (x : tensor) (output_shape : list dim)
    (batch_idx : Z) : M shape_arg :=
  b ← tf.shape_at x batch_idx;
  output_shape ← setitem (Lit <$> output_shape) batch_idx b;
  tf.stack output_shape.

(** Lines 167-171 and 215-218: the batch entry of a shape is taken from the
    runtime shape of [x] when it is [None]. *)
Definition process_dynamic_batch_size (x : tensor) (l : list dim) (batch_idx : Z)
    : M shape_arg :=
  b ← getitem l batch_idx;
  match b with
  | None => handle_dynamic_batch_size x l batch_idx
  | Some _ => mret (ShapeList l)
  end.

(** Lines 241-245: the same test outside the branch of line 149.  The
    function [handle_dynamic_batch_size] is a local name of [conv], bound by
    the [def] of line 163 inside that branch: here it is read before it has
    been bound. *)
Definition process_dynamic_batch_size_unbound (l : list dim) (batch_idx : Z)
    : M shape_arg :=
  b ← getitem l batch_idx;
  match b with
  | None => raise UnboundLocalError
  | Some _ => mret (ShapeList l)
  end.

(** Lines 173-188 and 247-262: the primitive for the spatial rank, and the
    strides it takes. *)
Definition get_conv_func (fr : frame) : M (conv_func * strides_arg) :=
  let strides_full := py_insert (compute_c_idx fr) 1 (1 :: strides fr) in
  if spatial_size fr =? 1 then
    s ← getitem (strides fr) 0; mret (conv1d_transpose, StridesInt s)
  else if spatial_size fr =? 2 then mret (conv2d_transpose, StridesList strides_full)
  else if spatial_size fr =? 3 then mret (conv3d_transpose, StridesList strides_full)
  else raise NotImplementedError.

(** Lines 150-160: the spatial extents in mode NOTSET. *)
Definition notset_extents (n : node) (fr : frame) (x_spatial_shape : list dim)
    : M (list dim) :=
  match attr_output_shape (attrs n) with
  | None =>
      mapM (λ i,
        s ← getitem (strides fr) i;
        xi ← getitem x_spatial_shape i;
        xi ← int_of xi;
        s' ← getitem (strides fr) i;
        k ← getitem (kernel_shape fr) i;
        k ← int_of k;
        d ← getitem (dilations fr) i;
        mret (Some (s * xi - s' + (k - 1) * d + 1))) (range (spatial_size fr))
  | Some output_shape =>
      mapM (λ '(i, s),
        p ← getitem (pads fr) i;
        q ← getitem (pads fr) (spatial_size fr + i);
        mret (Some (s + p + q))) (enumerate (last_two output_shape))
  end.

(** Lines 229-238: the spatial extents in modes VALID and SAME. *)
Definition auto_extents (fr : frame) (pad_mode : string)
    (x_spatial_shape weights_shape : list dim) : M (list dim) :=
  if String.eqb pad_mode "VALID" then
    mapM (λ i,
      s ← getitem (strides fr) i;
      xi ← getitem x_spatial_shape i;
      xi ← int_of xi;
      w ← getitem weights_shape i;
      w ← int_of w;
      mret (Some (s * (xi - 1) + w))) (range (spatial_size fr))
  else
    mapM (λ i,
      s ← getitem (strides fr) i;
      xi ← getitem x_spatial_shape i;
      xi ← int_of xi;
      mret (Some (s * xi))) (range (spatial_size fr)).

(** Lines 205-220: the slice that removes what [pads] declares. *)
Definition remove_pads (fr : frame) (x conv_rs : tensor) : M tensor :=
  let conv_rs_shape := get_shape conv_rs in
  let begin := py_insert (compute_c_idx fr) 0 (0 :: py_prefix (spatial_size fr) (pads fr)) in
  size ← mapM (λ '(d, s),
    if batch_or_channel d then mret s
    else
      p ← getitem (pads fr) (find (spatial_format fr) d);
      s ← int_of s;
      q ← getitem (pads fr) (find (spatial_format fr) d + spatial_size fr);
      mret (Some (s - p - q))) (zip (chars (compute_format fr)) conv_rs_shape);
  size ← process_dynamic_batch_size x size (find (compute_format fr) "N");
  tf.slice conv_rs begin size.

(** Lines 141-272: the body of the loop over the groups of a transposed
    convolution. *)
Definition conv_transpose_group (n : node) (fr : frame) (pad_mode : string)
    (x weight : tensor) : M tensor :=
  x_spatial_shape ← mapM (λ d, getitem (x_shape fr) (find (storage_format fr) d))
                      (chars (spatial_format fr));
  let weights_shape := get_shape (weights fr) in
  batch ← getitem (x_shape fr) (find (storage_format fr) "N");
  let conv_output_shape := [batch] in
  if String.eqb pad_mode "NOTSET" then
    extents ← notset_extents n fr x_spatial_shape;
    let conv_output_shape := conv_output_shape ++ extents in
    c ← getitem weights_shape (-2);
    let conv_output_shape := py_insert (compute_c_idx fr) c conv_output_shape in
    conv_output_shape ← process_dynamic_batch_size x conv_output_shape
                          (find (storage_format fr) "N");
    '(conv_func, strides_full) ← get_conv_func fr;
    conv_rs ← tf.conv_transpose conv_func x weight conv_output_shape strides_full
                "VALID" (compute_format fr);
    conv_rs ←
      match attr_output_padding (attrs n), attr_output_shape (attrs n) with
      | Some output_padding, None =>
          tf.pad conv_rs
            (py_insert (compute_c_idx fr) [0; 0]
               ([0; 0] :: ((λ p, [0; p]) <$> output_padding)))
      | _, _ => mret conv_rs
      end;
    remove_pads fr x conv_rs
  else
    extents ← auto_extents fr pad_mode x_spatial_shape weights_shape;
    let conv_output_shape := conv_output_shape ++ extents in
    c ← getitem weights_shape (-2);
    let conv_output_shape := py_insert (compute_c_idx fr) c conv_output_shape in
    conv_output_shape ← process_dynamic_batch_size_unbound conv_output_shape
                          (find (storage_format fr) "N");
    '(conv_func, strides_full) ← get_conv_func fr;
    tf.conv_transpose conv_func x weight conv_output_shape strides_full
      pad_mode (compute_format fr).

(** Line 140: the [for] statement rebinds [x] at every iteration, so after
    the loop [x] is the input slice of the last group. *)
Fixpoint conv_transpose_groups (n : node) (fr : frame) (pad_mode : string)
    (pairs : list (tensor * tensor)) (x : tensor) (convolved : list tensor)
    : M (tensor * list tensor) :=
  match pairs with
  | [] => mret (x, convolved)
  | (x, weight) :: pairs =>
      conv_rs ← conv_transpose_group n fr pad_mode x weight;
      conv_transpose_groups n fr pad_mode pairs x (convolved ++ [conv_rs])
  end.

(** Lines 277-295: the groups of a convolution that is not transposed.  The
    file is Python 3 source (line 275 has non-ASCII text and the file no
    encoding declaration): the comprehensions have a scope of their own, and
    [x] stays what it was. *)
Definition conv_groups (n : node) (fr : frame) (pad_mode : string)
    (xs weight_groups : list tensor) : M (list tensor) :=
  '(xs, pad_mode) ←
    (if same_lower_strided n fr then
       let pad := [1; 1] in
       xs ← (if support_cuda fr
             then mapM (λ x, tf.pad x [[0; 0]; [0; 0]; pad; pad]) xs
             else mapM (λ x, tf.pad x [[0; 0]; pad; pad; [0; 0]]) xs);
       mret (xs, "VALID")
     else mret (xs, pad_mode));
  mapM (λ '(x, weight),
    tf.nn_convolution x weight pad_mode (strides fr) (dilations fr)
      (compute_format fr)) (zip xs weight_groups).

(** Lines 297-317: concatenation of the groups, bias, and the return to the
    storage format. *)
Definition reassemble (B : backend) (n : node) (input_dict : gmap string handle)
    (fr : frame) (x : tensor) (convolved : list tensor) : M (list tensor) :=
  output ←
    (if (length (inputs n) =? 2)%nat then
       if support_cuda fr then tf.concat convolved 1
       else
         output ← tf.concat convolved (-1);
         tf.transpose output
           (get_perm_from_formats B (compute_format fr) (storage_format fr))
     else
       bias ← input input_dict n 2;
       bias ← explicit_broadcast x bias (compute_c_idx fr);
       if support_cuda fr then
         output ← tf.concat convolved 1;
         tf.add output bias
       else
         output ← tf.concat convolved (-1);
         output ← tf.add output bias;
         tf.transpose output
           (get_perm_from_formats B (compute_format fr) (storage_format fr)));
  mret [output].

(** Lines 126-295: the split into groups and the convolution of each. *)
Definition grouped_path (B : backend) (n : node) (transpose : bool) (fr : frame)
    (x : tensor) (pad_mode : string) (group : Z) : M (tensor * list tensor) :=
  weight_groups ← tf.split (weights fr) group (-1);
  '(x, xs) ←
    (if support_cuda fr then
       xs ← tf.split x group 1; mret (x, xs)
     else
       x ← tf.transpose x
             (get_perm_from_formats B (storage_format fr) (compute_format fr));
       xs ← tf.split x group (-1); mret (x, xs));
  if transpose then
    if negb (list_Z_eqb (dilations fr) (times [1] (spatial_size fr)))
    then raise RuntimeError
    else conv_transpose_groups n fr pad_mode (zip xs weight_groups) x []
  else
    convolved ← conv_groups n fr pad_mode xs weight_groups;
    mret (x, convolved).

(** Lines 64-317: the translation proper, once the locals are bound. *)
Definition conv_with_locals (B : backend) (n : node)
    (input_dict : gmap string handle) (transpose : bool) (fr : frame) (x : tensor)
    : M (list tensor) :=
  '(x, pad_mode) ← derive_pad_mode n transpose fr x;
  let group := default 1 (attr_group (attrs n)) in
  if (group =? 1) && negb transpose then fast_path B n input_dict fr x pad_mode
  else
    '(x, convolved) ← grouped_path B n transpose fr x pad_mode group;
    reassemble B n input_dict fr x convolved.

(** [ConvMixin.conv(node, input_dict, transpose)].  The two branches of lines
    40-45 bind the same [perm]. *)
Definition conv (B : backend) (n : node) (input_dict : gmap string handle)
    (transpose : bool) : M (list tensor) :=
  x ← input input_dict n 0;
  let x_rank := Z.of_nat (length (get_shape x)) in
  let x_shape := get_shape x in
  let spatial_size := x_rank - 2 in
  let support_cuda := supports_device B "CUDA" in
  '(storage_format, compute_format) ← data_formats B x_rank;
  let compute_c_idx := find compute_format "C" in
  let spatial_format :=
    string_of_list_ascii
      (List.filter (λ d, negb (batch_or_channel d)) (chars compute_format)) in
  in_weights ← input input_dict n 1;
  let weights_rank := Z.of_nat (length (get_shape in_weights)) in
  let perm := range_from 2 weights_rank ++ [1; 0] in
  kernel_shape ← resolve_kernel_shape n in_weights;
  weights ← tf.transpose in_weights perm;
  let dilations := default (times [1] spatial_size) (attr_dilations (attrs n)) in
  let strides := default (times [1] spatial_size) (attr_strides (attrs n)) in
  let pads := default (times [0; 0] spatial_size) (attr_pads (attrs n)) in
  conv_with_locals B n input_dict transpose
    (Frame x_shape spatial_size support_cuda storage_format compute_format
       compute_c_idx spatial_format weights kernel_shape dilations strides pads)
    x.

(** The locals of a call on the data [x] and the weights [w], when the rank
    of [x] has layouts and the check of [kernel_shape] has passed. *)
Definition frame_of (B : backend) (n : node) (x w : handle) : frame :=
  let x_rank := Z.of_nat (length (shape x)) in
  let spatial_size := x_rank - 2 in
  let formats := default ("", "") (get_data_format B x_rank) in
  let compute_format := formats.2 in
  {| x_shape := shape x;
     spatial_size := spatial_size;
     support_cuda := supports_device B "CUDA";
     storage_format := formats.1;
     compute_format := compute_format;
     compute_c_idx := find compute_format "C";
     spatial_format :=
       string_of_list_ascii
         (List.filter (λ d, negb (batch_or_channel d)) (chars compute_format));
     weights :=
       Transpose (Input w)
         (range_from 2 (Z.of_nat (length (shape w))) ++ [1; 0]);
     kernel_shape := drop 2 (shape w);
     dilations := default (times [1] spatial_size) (attr_dilations (attrs n));
     strides := default (times [1] spatial_size) (attr_strides (attrs n));
     pads := default (times [0; 0] spatial_size) (attr_pads (attrs n)) |}.

(** The output in the storage format: lines 111-112, 121-122, 302-303 and
    314-315 transpose it when the accelerated path is unavailable. *)
Definition to_storage (B : backend) (fr : frame) (t : tensor) : tensor :=
  if support_cuda fr then t
  else Transpose t (get_perm_from_formats B (compute_format fr) (storage_format fr)).

(** ** Two concrete backends *)

(** Modelled from the spec: the layout utility [get_data_format] of
    [onnx_tf.common] is not among the sources.  It classifies a rank into a
    storage and a compute layout over the labels N, C and the spatial labels.
    The label of the spatial axis [i], counted from the last one, is read at
    the index [-i - 1] of the labels D, H, W: there is none for a fourth
    spatial axis, and at a rank above 5 the subscript raises IndexError.
    [conv] splits the untransposed input on axis 1 when the accelerated path
    is available and on the last axis, after the transposition, when it is
    not: storage is N, C, spatial; compute is the same with the accelerated
    path, and N, spatial, C without. *)
Definition data_format (cuda : bool) (x_rank : Z) : option (string * string) :=
  sp_dim_lst ← mapM (λ i, py_nth (chars "DHW") (- i - 1)) (range (x_rank - 2));
  let sp := string_of_list_ascii (reverse sp_dim_lst) in
  Some ("NC" +:+ sp, if cuda then "NC" +:+ sp else "N" +:+ sp +:+ "C").

(** Modelled from the spec: the layout utility [get_perm_from_formats] of
    [onnx_tf.common] is not among the sources.  It computes the permutation
    that takes a tensor from one layout to the other. *)
Definition perm_from_formats (from_ to_ : string) : list Z :=
  find from_ <$> chars to_.

(** The backend with the accelerated path, and the one without. *)
Definition accelerated : backend :=
  Backend (λ _, true) (data_format true) perm_from_formats.
Definition fallback : backend :=
  Backend (λ _, false) (data_format false) perm_from_formats.

(** ** Sample inputs *)

Definition no_attrs : attributes :=
  Attributes None None None None None None None None.

(** A rank-4 input of shape [1,3,8,8] and weights of shape [4,3,3,3]. *)
Definition X : handle := Handle "X" [Some 1; Some 3; Some 8; Some 8].
Definition W : handle := Handle "W" [Some 4; Some 3; Some 3; Some 3].
Definition Bias : handle := Handle "B" [Some 4].

(** The same input with a batch size that is unknown statically. *)
Definition Xdyn : handle := Handle "Xdyn" [None; Some 3; Some 8; Some 8].

(** Inputs and weights of rank 5 (three spatial axes), of rank 3 (one), of
    rank 6 (four) and of rank 2 (none). *)
Definition X5 : handle := Handle "X5" [Some 1; Some 2; Some 4; Some 4; Some 4].
Definition W5 : handle := Handle "W5" [Some 2; Some 2; Some 3; Some 3; Some 3].
Definition X3 : handle := Handle "X3" [Some 1; Some 2; Some 8].
Definition W3 : handle := Handle "W3" [Some 2; Some 2; Some 3].
Definition X6 : handle :=
  Handle "X6" [Some 1; Some 3; Some 4; Some 4; Some 4; Some 4].
Definition W6 : handle :=
  Handle "W6" [Some 3; Some 4; Some 2; Some 2; Some 2; Some 2].
Definition X2 : handle := Handle "X2" [Some 1; Some 3].
Definition W2 : handle := Handle "W2" [Some 3; Some 4].
Definition X2dyn : handle := Handle "X2dyn" [None; Some 3].

(** The input and the weights of a transposed convolution: shapes [1,4,5,5]
    and [4,2,3,3]. *)
Definition XT : handle := Handle "XT" [Some 1; Some 4; Some 5; Some 5].
Definition WT : handle := Handle "WT" [Some 4; Some 2; Some 3; Some 3].
Definition XTdyn : handle := Handle "XTdyn" [None; Some 4; Some 5; Some 5].

(** An input of shape [1,4,8,8]: with the weights [4,2,3,3] and two groups,
    each group has two of its four channels. *)
Definition X4 : handle := Handle "X4" [Some 1; Some 4; Some 8; Some 8].

Definition tensors : gmap string handle :=
  list_to_map
    [("X", X); ("W", W); ("B", Bias); ("Xdyn", Xdyn); ("X5", X5); ("W5", W5);
     ("X3", X3); ("W3", W3); ("X6", X6); ("W6", W6); ("X2", X2); ("W2", W2);
     ("XT", XT); ("WT", WT); ("XTdyn", XTdyn); ("X2dyn", X2dyn);
     ("X4", X4)].

(** A transposed convolution with strides [2, 2], pads of 1 and an output
    padding of 1, on an input whose batch size is unknown; and the same with
    an [output_shape] besides. *)
Definition padded_transposed : node :=
  Node ["XTdyn"; "WT"]
    (Attributes None (Some [2; 2]) None (Some [1; 1; 1; 1]) None None None
       (Some [1; 1])).
Definition shaped_transposed : node :=
  Node ["XTdyn"; "WT"]
    (Attributes None (Some [2; 2]) None (Some [1; 1; 1; 1]) None None
       (Some [10; 10]) (Some [1; 1])).

(** Two groups and a bias: a convolution and a transposed convolution. *)
Definition biased_grouped : node :=
  Node ["X4"; "WT"; "B"] (Attributes None None None None (Some 2) None None None).
Definition biased_transposed : node :=
  Node ["XT"; "WT"; "B"]
    (Attributes None None None None (Some 2) (Some "VALID") None None).

(** A transposed convolution with strides [2, 2] and [auto_pad] VALID. *)
Definition valid_transposed : node :=
  Node ["XT"; "WT"]
    (Attributes None (Some [2; 2]) None None None (Some "VALID") None None).

(** The input [i] of the node is bound to the handle [h]. *)
Definition resolves (input_dict : gmap string handle) (n : node) (i : nat)
    (h : handle) : Prop :=
  ∃ key, inputs n !! i = Some key ∧ input_dict !! key = Some h.

(** The layout utility has layouts for the rank of [x]. *)
Definition laid_out (B : backend) (x : handle) : Prop :=
  is_Some (get_data_format B (Z.of_nat (length (shape x)))).

(** * Vocabulary of the properties *)

(** ** Failures and emitted operations *)

(** The four failures of the translation itself; the others are the
    interpreter's, on inputs that break the input contract. *)
Definition translation_failure (e : exception) : bool :=
  match e with
  | OpUnsupported | RuntimeError | ValueError | NotImplementedError => true
  | _ => false
  end.

(** The failures of the interpreter. *)
Definition python_error (e : exception) : bool :=
  match e with
  | IndexError | KeyError | TypeError | UnboundLocalError => true
  | _ => false
  end.

(** A computation whose only failures are the interpreter's. *)
Definition python_only {A} (m : M A) : Prop :=
  ∀ e, outcome m = inl e → python_error e = true.

(** A computation that, besides, emits nothing. *)
Definition quiet {A} (m : M A) : Prop :=
  emitted m = [] ∧ python_only m.

(** Weakest precondition of a run, over what it emitted and its outcome. *)
Definition wp {A} (m : M A) (Q : list op_kind → exception + A → Prop) : Prop :=
  Q (emitted m) (outcome m).

(** The spatial ranks that have a transposed-convolution primitive. *)
Definition supported_rank (fr : frame) : bool :=
  (spatial_size fr =? 1) || (spatial_size fr =? 2) || (spatial_size fr =? 3).

(** What lines 126-133 emit, and what a dynamic batch size adds. *)
Definition partition_ops (cuda : bool) : list op_kind :=
  if cuda then [OpSplit; OpSplit] else [OpSplit; OpTranspose; OpSplit].
Definition dynamic_batch_ops : list op_kind := [OpShape; OpStridedSlice; OpPack].

(** What a failed run of a computation of the transposed path can be. *)
Definition rank_failure {A} (t : list op_kind) (r : exception + A) : Prop :=
  match r with
  | inl e => python_error e = true
             ∨ (e = NotImplementedError ∧ (t = [] ∨ t = dynamic_batch_ops))
  | inr _ => False
  end.

(** The failures of the translation in lines 126-295, and what has been
    emitted there when they are raised. *)
Definition partition_failure (transpose cuda : bool) (e : exception)
    (t : list op_kind) : Prop :=
  transpose = true
  ∧ ((e = RuntimeError ∧ t = partition_ops cuda)
     ∨ (e = NotImplementedError
        ∧ (t = partition_ops cuda ∨ t = partition_ops cuda ++ dynamic_batch_ops))).

(** The failures of the translation, and what each one has emitted when it
    is raised. *)
Definition failure_trace (cuda : bool) (e : exception) (t : list op_kind) : Prop :=
  match e with
  | ValueError | OpUnsupported => t = [OpTranspose]
  | RuntimeError => t = OpTranspose :: partition_ops cuda
  | NotImplementedError =>
      t = OpTranspose :: partition_ops cuda
      ∨ t = OpTranspose :: partition_ops cuda ++ dynamic_batch_ops
  | _ => True
  end.

(** Operations that only rearrange or inspect: the others compute on data. *)
Definition setup_op (k : op_kind) : bool :=
  match k with
  | OpTranspose | OpSplit | OpShape | OpStridedSlice | OpPack => true
  | _ => false
  end.

(** [auto_pad] is absent or one of NOTSET, SAME_UPPER and VALID. *)
Definition auto_pad_known (n : node) : bool :=
  match attr_auto_pad (attrs n) with
  | None => true
  | Some a => String.eqb a "NOTSET" || String.eqb a "SAME_UPPER" || String.eqb a "VALID"
  end.

(** A computation that emits operations of the kinds [P] only. *)
Definition emits_only {A} (P : op_kind → bool) (m : M A) : Prop :=
  forallb P (emitted m) = true.

(** Every operation but the slice. *)
Definition not_slice (k : op_kind) : bool :=
  match k with
  | OpSlice => false
  | _ => true
  end.

(** ** The shape argument of a transposed convolution *)

(** The padding mode of lines 64-81 for a transposed convolution whose
    [auto_pad] is absent or one of NOTSET, SAME_UPPER and VALID. *)
Definition transposed_pad_mode (n : node) : string :=
  if auto_pad_is n "SAME_UPPER" then "SAME"
  else if auto_pad_is n "VALID" then "VALID"
  else "NOTSET".

(** Lines 141-171 and 229-245: what the loop does for a group before it
    selects the primitive, the computation of the shape argument
    [conv_output_shape] from the static shape of the input. *)
Definition conv_output_shape (n : node) (fr : frame) (pad_mode : string)
    (x : tensor) : M shape_arg :=
  x_spatial_shape ← mapM (λ d, getitem (x_shape fr) (find (storage_format fr) d))
                      (chars (spatial_format fr));
  let weights_shape := get_shape (weights fr) in
  batch ← getitem (x_shape fr) (find (storage_format fr) "N");
  let conv_output_shape := [batch] in
  if String.eqb pad_mode "NOTSET" then
    extents ← notset_extents n fr x_spatial_shape;
    let conv_output_shape := conv_output_shape ++ extents in
    c ← getitem weights_shape (-2);
    let conv_output_shape := py_insert (compute_c_idx fr) c conv_output_shape in
    process_dynamic_batch_size x conv_output_shape (find (storage_format fr) "N")
  else
    extents ← auto_extents fr pad_mode x_spatial_shape weights_shape;
    let conv_output_shape := conv_output_shape ++ extents in
    c ← getitem weights_shape (-2);
    let conv_output_shape := py_insert (compute_c_idx fr) c conv_output_shape in
    process_dynamic_batch_size_unbound conv_output_shape
      (find (storage_format fr) "N").

(** The failure of a call that stops at the selection of the primitive: the
    error of the computation [m] of the shape argument when it fails, and
    the unimplemented rank when it returns. *)
Definition rank_check_failure {A} (m : M A) : exception :=
  match outcome m with
  | inl e => e
  | inr _ => NotImplementedError
  end.

(** ** Groups and their results *)

(** The input in the compute format, the axis of its channels, and the
    slices of input and weights of lines 126-133. *)
Definition compute_input (B : backend) (fr : frame) (x : tensor) : tensor :=
  if support_cuda fr then x
  else Transpose x (get_perm_from_formats B (storage_format fr) (compute_format fr)).
Definition channel_axis (fr : frame) : Z := if support_cuda fr then 1 else -1.
Definition input_groups (B : backend) (fr : frame) (x : tensor) (group : Z)
    : list tensor :=
  SplitOut (compute_input B fr x) group (channel_axis fr) <$> seq 0 (Z.to_nat group).
Definition weight_groups (fr : frame) (group : Z) : list tensor :=
  SplitOut (weights fr) group (-1) <$> seq 0 (Z.to_nat group).

(** [x_spatial_shape] of line 141. *)
Definition x_spatial_shape (fr : frame) (xs : list dim) : Prop :=
  Forall2 (λ d v, py_nth (x_shape fr) (find (storage_format fr) d) = Some v)
    (chars (spatial_format fr)) xs.

(** The spatial extent at the axis [i] of the output, in the modes VALID and
    SAME of a transposed convolution. *)
Definition valid_extent (fr : frame) (xs : list dim) (i : Z) (v : dim) : Prop :=
  ∃ s xi k, py_nth (strides fr) i = Some s ∧ py_nth xs i = Some (Some xi)
            ∧ py_nth (kernel_shape fr) i = Some (Some k)
            ∧ v = Some (s * (xi - 1) + k).
Definition same_extent (fr : frame) (xs : list dim) (i : Z) (v : dim) : Prop :=
  ∃ s xi, py_nth (strides fr) i = Some s ∧ py_nth xs i = Some (Some xi)
          ∧ v = Some (s * xi).

(** The transposed convolution of one group: the primitive, applied to the
    slices [x] and [weight], with a shape argument whose static part is the
    batch size, the [extents] and the channels inserted at the channel
    index. *)
Definition transposed_call (fr : frame) (x weight : tensor) (pad_mode : string)
    (extents : list dim) (r : tensor) : Prop :=
  ∃ f output_shape strides_full batch c,
    r = ConvTranspose f x weight output_shape strides_full pad_mode (compute_format fr)
    ∧ outcome (get_conv_func fr) = inr (f, strides_full)
    ∧ py_nth (x_shape fr) (find (storage_format fr) "N") = Some batch
    ∧ py_nth (get_shape (weights fr)) (-2) = Some c
    ∧ static_shape output_shape = py_insert (compute_c_idx fr) c (batch :: extents).

(** The convolved groups, concatenated along the channel axis, with the
    bias added when the node has one. *)
Definition concat_and_bias (input_dict : gmap string handle) (n : node)
    (fr : frame) (x : tensor) (convolved : list tensor) (core : tensor) : Prop :=
  (length (inputs n) = 2%nat ∧ core = Concat convolved (channel_axis fr))
  ∨ (length (inputs n) ≠ 2%nat
     ∧ ∃ bias, outcome (input input_dict n 2) = inr bias
               ∧ core = Add (Concat convolved (channel_axis fr))
                          (ExplicitBroadcast x bias (compute_c_idx fr))).

(** The node with other [output_shape] and [output_padding] attributes. *)
Definition with_output_attrs (output_shape output_padding : option (list Z))
    (n : node) : node :=
  Node (inputs n)
    (Attributes (attr_kernel_shape (attrs n)) (attr_strides (attrs n))
       (attr_dilations (attrs n)) (attr_pads (attrs n)) (attr_group (attrs n))
       (attr_auto_pad (attrs n)) output_shape output_padding).

(** ** Output padding and crop *)

(** Lines 199-203: [output_padding] is applied when no [output_shape] is
    given, as padding at the end of every axis but the batch and channel
    ones. *)
Definition output_padded (n : node) (fr : frame) (conv_rs : tensor) : tensor :=
  match attr_output_padding (attrs n), attr_output_shape (attrs n) with
  | Some output_padding, None =>
      Pad conv_rs
        (py_insert (compute_c_idx fr) [0; 0]
           ([0; 0] :: ((λ p, [0; p]) <$> output_padding)))
  | _, _ => conv_rs
  end.

(** [begin] of line 207-208: nothing at the batch and channel axes, the
    leading [pads] at the spatial ones. *)
Definition crop_begin (fr : frame) : list Z :=
  py_insert (compute_c_idx fr) 0 (0 :: py_prefix (spatial_size fr) (pads fr)).

(** The size of the slice at an axis labelled [d] of extent [s]: all of a
    batch or channel axis, and a spatial axis less its two [pads]. *)
Definition crop_size (fr : frame) (d : ascii) (s v : dim) : Prop :=
  if batch_or_channel d then v = s
  else ∃ s' p q,
      s = Some s'
      ∧ py_nth (pads fr) (find (spatial_format fr) d) = Some p
      ∧ py_nth (pads fr) (find (spatial_format fr) d + spatial_size fr) = Some q
      ∧ v = Some (s' - p - q).

(** The size argument [size] of the slice of [conv_rs], computed for the
    group whose input slice is [x]: when the batch extent is unknown
    statically, it is the runtime one of [x]. *)
Definition crop_sizes (fr : frame) (x conv_rs : tensor) (size : shape_arg) : Prop :=
  Forall2 (λ ds v, crop_size fr ds.1 ds.2 v)
    (zip (chars (compute_format fr)) (get_shape conv_rs)) (static_shape size)
  ∧ let batch_idx := find (compute_format fr) "N" in
    match py_nth (static_shape size) batch_idx with
    | Some None => ∃ l, size = Stack l ∧ py_nth l batch_idx = Some (ShapeAt x batch_idx)
    | _ => size = ShapeList (static_shape size)
    end.

(** A compute format made of N, the spatial labels and C at the channel
    index, with as many distinct spatial labels as the spatial rank. *)
Definition layout_well_formed (fr : frame) : Prop :=
  chars (compute_format fr)
  = py_insert (compute_c_idx fr) "C"%char ("N"%char :: chars (spatial_format fr))
  ∧ NoDup (chars (spatial_format fr))
  ∧ Forall (λ d, batch_or_channel d = false) (chars (spatial_format fr))
  ∧ Z.of_nat (length (chars (spatial_format fr))) = spatial_size fr.

(** Where the slice starts at the axis labelled [d]: at 0 for the batch and
    the channels, at the leading pad of a spatial axis. *)
Definition crop_start (fr : frame) (d : ascii) (b : Z) : Prop :=
  if batch_or_channel d then b = 0
  else py_nth (pads fr) (find (spatial_format fr) d) = Some b.

(** ** Inputs of the convolutions *)

(** The input after lines 64-91: as it is, or with the explicit [pads]. *)
Definition derived_input (fr : frame) (x : handle) (x' : tensor) : Prop :=
  x' = Input x ∨ x' = PaddingAsOp (Input x) (pads fr).

(** The input of the single convolution of lines 95-108: the derived input,
    or that input padded by one unit (and transposed when the accelerated
    path is unavailable). *)
Definition fast_path_input (B : backend) (fr : frame) (x' ref : tensor) : Prop :=
  ref = x'
  ∨ (support_cuda fr = true ∧ ref = Pad x' [[0; 0]; [0; 0]; [1; 1]; [1; 1]])
  ∨ (support_cuda fr = false
     ∧ ref = Transpose (Pad x' [[0; 0]; [1; 1]; [1; 1]; [0; 0]])
               (get_perm_from_formats B (storage_format fr) (compute_format fr))).

(** ** The returned tensor *)


(** ** Kinds of operations *)

(** The operations of a convolution that is not transposed. *)
Definition forward_op (k : op_kind) : bool :=
  match k with
  | OpTranspose | OpPad | OpSplit | OpConvolution | OpConcat | OpAdd
  | OpBroadcast => true
  | _ => false
  end.

(** Every operation but the convolution primitive [tf.nn.convolution]. *)
Definition not_convolution (k : op_kind) : bool :=
  match k with
  | OpConvolution => false
  | _ => true
  end.

(** [auto_pad] is none of the four values of lines 65-81. *)
Definition auto_pad_invalid (a : string) : Prop :=
  a ≠ "NOTSET" ∧ a ≠ "SAME_UPPER" ∧ a ≠ "VALID" ∧ a ≠ "SAME_LOWER".

(** The node with another [pads] attribute. *)
Definition with_pads (pads : option (list Z)) (n : node) : node :=
  Node (inputs n)
    (Attributes (attr_kernel_shape (attrs n)) (attr_strides (attrs n))
       (attr_dilations (attrs n)) pads (attr_group (attrs n))
       (attr_auto_pad (attrs n)) (attr_output_shape (attrs n))
       (attr_output_padding (attrs n))).

(** The frame with another value of [pads]. *)
Definition set_pads (pads : list Z) (fr : frame) : frame :=
  Frame (x_shape fr) (spatial_size fr) (support_cuda fr) (storage_format fr)
    (compute_format fr) (compute_c_idx fr) (spatial_format fr) (weights fr)
    (kernel_shape fr) (dilations fr) (strides fr) pads.

(** ** Convolutions that are not transposed *)










(** ** Extents of a transposed convolution with explicit pads *)

(** The index that [l[i]] reads or writes in a list of length [len]. *)
Definition py_index (len : nat) (i : Z) : Z :=
  if i <? 0 then i + Z.of_nat len else i.

(** The shape argument [s] that lines 167-171 make of the list [shape] for
    the group whose input slice is [x]: the list itself when its entry at
    the batch index is known, and otherwise the stack of its entries with
    the runtime extent of [x] in place of that entry. *)
Definition batch_substituted (fr : frame) (x : tensor) (shape : list dim)
    (s : shape_arg) : Prop :=
  let batch_idx := find (storage_format fr) "N" in
  match py_nth shape batch_idx with
  | Some None =>
      s = Stack (<[Z.to_nat (py_index (length shape) batch_idx)
                   := ShapeAt x batch_idx]> (Lit <$> shape))
  | _ => s = ShapeList shape
  end.

(** The entry of [output_padding] at the spatial axis [i], 0 when the
    attribute is absent. *)
Definition output_padding_at (n : node) (i : Z) : Z :=
  match attr_output_padding (attrs n) with
  | Some output_padding => default 0 (py_nth output_padding i)
  | None => 0
  end.

(** The extent of the docstring (lines 20-25) at the spatial axis [i]:
    [strides[i] * (input_shape[i] - 1) + kernel_shape[i]], with
    [output_padding[i]] added and the two [pads] of the axis removed. *)
Definition declared_extent (n : node) (fr : frame) (xs : list dim) (i : Z)
    (v : dim) : Prop :=
  ∃ s xi k p q,
    py_nth (strides fr) i = Some s
    ∧ py_nth xs i = Some (Some xi)
    ∧ py_nth (kernel_shape fr) i = Some (Some k)
    ∧ py_nth (pads fr) i = Some p
    ∧ py_nth (pads fr) (i + spatial_size fr) = Some q
    ∧ v = Some (s * (xi - 1) + k + output_padding_at n i - p - q).

(** The slice of a group: what it is taken from, and the static part of its
    size, made of the batch extent, the spatial extents [finals] and the
    channels of the weights at the channel index. *)
Definition sliced_to (fr : frame) (finals : list dim) (r : tensor) : Prop :=
  ∃ conv_rs begin size batch c,
    r = Slice conv_rs begin size
    ∧ py_nth (x_shape fr) (find (storage_format fr) "N") = Some batch
    ∧ py_nth (get_shape (weights fr)) (-2) = Some c
    ∧ static_shape size = py_insert (compute_c_idx fr) c (batch :: finals).

(** * Properties *)

(** ** Laws of the monad *)

Lemma bind_mret {A B} (a : A) (f : A → M B) : (mret a ≫= f) = f a.
Proof. unfold mbind, mret, M_bind, M_ret. simpl. by destruct (f a). Qed.

Lemma bind_raise {A B} (e : exception) (f : A → M B) : (raise e ≫= f) = raise e.
Proof. reflexivity. Qed.

Lemma bind_run_inr {A B} (t : list op_kind) (a : A) (f : A → M B) :
  (Run t (inr a) ≫= f) = Run (t ++ emitted (f a)) (outcome (f a)).
Proof. reflexivity. Qed.

Lemma bind_run_inl {A B} (t : list op_kind) (e : exception) (f : A → M B) :
  (Run t (inl e) ≫= f) = Run t (inl e).
Proof. reflexivity. Qed.

Lemma bind_ext {A B} (m : M A) (f g : A → M B) :
  (∀ a, f a = g a) → (m ≫= f) = (m ≫= g).
Proof. intros H. unfold mbind, M_bind. destruct (outcome m); [done | by rewrite H]. Qed.

Lemma bind_assoc {A B C} (m : M A) (f : A → M B) (g : B → M C) :
  ((m ≫= f) ≫= g) = (m ≫= λ a, f a ≫= g).
Proof.
  unfold mbind, M_bind. destruct m as [t [e|a]]; simpl; [done|].
  destruct (f a) as [t' [e|b]]; simpl; [done|]. by rewrite app_assoc.
Qed.

Lemma py_nth_of_nat {A} (l : list A) (i : nat) (a : A) :
  l !! i = Some a → py_nth l (Z.of_nat i) = Some a.
Proof.
  intros H. pose proof (lookup_lt_Some _ _ _ H) as Hlt. unfold py_nth.
  destruct (Z.ltb_spec (Z.of_nat i) 0) as [?|_]; [lia|].
  destruct (Z.leb_spec 0 (Z.of_nat i)) as [_|?]; [|lia].
  destruct (Z.ltb_spec (Z.of_nat i) (Z.of_nat (length l))) as [_|?]; [|lia].
  simpl. by rewrite Nat2Z.id.
Qed.

Lemma input_resolves (input_dict : gmap string handle) n i h z :
  resolves input_dict n i h → z = Z.of_nat i →
  input input_dict n z = mret (Input h).
Proof.
  intros (key & Hk & Hd) ->. unfold input, getitem.
  rewrite (py_nth_of_nat _ _ _ Hk), bind_mret, Hd. done.
Qed.

Lemma data_formats_laid_out B x :
  laid_out B x →
  ∃ formats,
    get_data_format B (Z.of_nat (length (shape x))) = Some formats
    ∧ data_formats B (Z.of_nat (length (get_shape (Input x)))) = mret formats.
Proof. intros [formats H]. exists formats. unfold data_formats. simpl. by rewrite H. Qed.

(** ** Kernel shape *)

Lemma resolve_kernel_shape_mismatch n w ks :
  attr_kernel_shape (attrs n) = Some ks →
  drop 2 (shape w) ≠ Some <$> ks →
  resolve_kernel_shape n (Input w) = raise AssertionError.
Proof.
  intros Hk Hne. unfold resolve_kernel_shape, list_dim_eqb. rewrite Hk. simpl.
  by rewrite bool_decide_eq_false_2.
Qed.

(** C3: on an input whose rank has layouts, a [kernel_shape] attribute that
    differs from the trailing dimensions of the weights (from index 2 on)
    makes the translation raise the assertion error (ShapeMismatch) with
    nothing emitted; without the attribute, [kernel_shape] is those trailing
    dimensions. *)
Theorem kernel_shape_checked_first B n input_dict transpose x w :
  resolves input_dict n 0 x →
  laid_out B x →
  resolves input_dict n 1 w →
  (∀ ks, attr_kernel_shape (attrs n) = Some ks →
         drop 2 (shape w) ≠ Some <$> ks →
         conv B n input_dict transpose = Run [] (inl AssertionError))
  ∧ (attr_kernel_shape (attrs n) = None →
     resolve_kernel_shape n (Input w) = Run [] (inr (drop 2 (shape w)))).
Proof.
  intros Hx Hl Hw. split.
  - intros ks Hk Hne. unfold conv.
    rewrite (input_resolves _ _ _ _ 0 Hx eq_refl), bind_mret.
    destruct (data_formats_laid_out B x Hl) as ([storage compute] & _ & ->).
    rewrite bind_mret.
    rewrite (input_resolves _ _ _ _ 1 Hw eq_refl), bind_mret.
    by rewrite (resolve_kernel_shape_mismatch _ _ _ Hk Hne).
  - intros Hk. unfold resolve_kernel_shape. by rewrite Hk.
Qed.

Lemma kernel_shape_checked_first_witness :
  conv accelerated
    (Node ["X"; "W"]
       (Attributes (Some [5; 5]) None None None None None None None))
    tensors false = Run [] (inl AssertionError)
  ∧ resolve_kernel_shape (Node ["X"; "W"] no_attrs) (Input W)
    = Run [] (inr [Some 3; Some 3]).
Proof.
  split.
  - apply (kernel_shape_checked_first accelerated _ tensors false X W)
      with (ks := [5; 5]).
    + exists "X". split; reflexivity.
    + by eexists.
    + exists "W". split; reflexivity.
    + reflexivity.
    + discriminate.
  - apply (kernel_shape_checked_first accelerated (Node ["X"; "W"] no_attrs)
             tensors false X W).
    + exists "X". split; reflexivity.
    + by eexists.
    + exists "W". split; reflexivity.
    + reflexivity.
Defined.

(** ** Padding mode *)

Lemma resolve_kernel_shape_ok n w :
  (∀ ks, attr_kernel_shape (attrs n) = Some ks → drop 2 (shape w) = Some <$> ks) →
  resolve_kernel_shape n (Input w) = mret (drop 2 (shape w)).
Proof.
  intros H. unfold resolve_kernel_shape, list_dim_eqb.
  destruct (attr_kernel_shape (attrs n)) as [ks|]; [|done].
  specialize (H ks eq_refl). simpl. rewrite bool_decide_eq_true_2; [|done].
  simpl in H. by rewrite H.
Qed.

(** A call whose inputs are bound, whose input has layouts and whose kernel
    shape is consistent transposes the weights and goes on with the locals of
    [frame_of]. *)
Lemma conv_resolved B n input_dict transpose x w :
  resolves input_dict n 0 x →
  laid_out B x →
  resolves input_dict n 1 w →
  (∀ ks, attr_kernel_shape (attrs n) = Some ks → drop 2 (shape w) = Some <$> ks) →
  conv B n input_dict transpose
  = (Run [OpTranspose] (inr ())
     ≫= λ _, conv_with_locals B n input_dict transpose (frame_of B n x w) (Input x)).
Proof.
  intros Hx Hl Hw Hk. unfold conv, frame_of.
  rewrite (input_resolves _ _ _ _ 0 Hx eq_refl), bind_mret.
  destruct (data_formats_laid_out B x Hl) as ([storage compute] & -> & ->).
  rewrite bind_mret. simpl get_shape.
  rewrite (input_resolves _ _ _ _ 1 Hw eq_refl), bind_mret.
  rewrite (resolve_kernel_shape_ok _ _ Hk), bind_mret.
  unfold tf.transpose, emit. by rewrite bind_assoc, bind_mret.
Qed.

Lemma derive_pad_mode_same_lower_transpose n fr x :
  attr_auto_pad (attrs n) = Some "SAME_LOWER" →
  derive_pad_mode n true fr x = raise OpUnsupported.
Proof. intros H. unfold derive_pad_mode. rewrite H. reflexivity. Qed.

(** C1, as the code has it: a ConvTranspose node whose [auto_pad] is
    SAME_LOWER, whose input has a rank with layouts and whose [kernel_shape]
    attribute is absent or agrees with the weights raises
    UnsupportedOnBackend, whatever strides, dilations, pads, group,
    output_shape and output_padding are; only the transposition of the
    weights has been emitted. *)
Theorem same_lower_transpose_unsupported B n input_dict x w :
  resolves input_dict n 0 x →
  laid_out B x →
  resolves input_dict n 1 w →
  (∀ ks, attr_kernel_shape (attrs n) = Some ks → drop 2 (shape w) = Some <$> ks) →
  attr_auto_pad (attrs n) = Some "SAME_LOWER" →
  conv B n input_dict true = Run [OpTranspose] (inl OpUnsupported).
Proof.
  intros Hx Hl Hw Hk Hpad. rewrite (conv_resolved _ _ _ _ _ _ Hx Hl Hw Hk).
  unfold conv_with_locals.
  by rewrite (derive_pad_mode_same_lower_transpose _ _ _ Hpad).
Qed.

Lemma same_lower_transpose_unsupported_witness :
  conv accelerated
    (Node ["X"; "W"]
       (Attributes (Some [3; 3]) (Some [2; 2]) (Some [2; 2]) (Some [1; 1; 1; 1])
          (Some 3) (Some "SAME_LOWER") (Some [16; 16]) (Some [1; 1])))
    tensors true = Run [OpTranspose] (inl OpUnsupported).
Proof.
  apply (same_lower_transpose_unsupported accelerated _ tensors X W).
  - exists "X". split; reflexivity.
  - by eexists.
  - exists "W". split; reflexivity.
  - intros ks [= <-]. reflexivity.
  - reflexivity.
Defined.

(** C1 as stated fails: with a [kernel_shape] attribute that disagrees with
    the weights, the assertion of line 49 comes first. *)
Lemma same_lower_transpose_shape_mismatch :
  conv accelerated
    (Node ["X"; "W"]
       (Attributes (Some [5; 5]) None None None None (Some "SAME_LOWER") None None))
    tensors true = Run [] (inl AssertionError)
  ∧ outcome (conv accelerated
      (Node ["X"; "W"]
         (Attributes (Some [5; 5]) None None None None (Some "SAME_LOWER") None
            None))
      tensors true) ≠ inl OpUnsupported.
Proof. split; [vm_compute; reflexivity | vm_compute; discriminate]. Qed.

(** ** What a run has emitted when it fails *)

Lemma wp_bind {A B} (m : M A) (f : A → M B) Q :
  wp m (λ t r, match r with
               | inl e => Q t (inl e)
               | inr a => wp (f a) (λ t' r', Q (t ++ t') r')
               end) →
  wp (m ≫= f) Q.
Proof. unfold wp, mbind, M_bind. by destruct m as [t [e|a]]. Qed.

Lemma wp_quiet {A} (m : M A) (Q : list op_kind → exception + A → Prop) :
  quiet m →
  (∀ e, python_error e = true → Q [] (inl e)) →
  (∀ a, outcome m = inr a → Q [] (inr a)) →
  wp m Q.
Proof.
  intros [Ht He] Hfail Hok. unfold wp. rewrite Ht.
  destruct (outcome m) as [e|a] eqn:E; [apply Hfail, He; done | by apply Hok].
Qed.

Lemma wp_python_only {A} (m : M A) (Q : list op_kind → exception + A → Prop) :
  python_only m →
  (∀ t e, python_error e = true → Q t (inl e)) →
  (∀ t a, Q t (inr a)) →
  wp m Q.
Proof.
  intros He Hfail Hok. unfold wp.
  destruct (outcome m) as [e|a] eqn:E; [apply Hfail, He; done | apply Hok].
Qed.

Lemma quiet_python_only {A} (m : M A) : quiet m → python_only m.
Proof. by intros [_ ?]. Qed.

Lemma python_only_mret {A} (a : A) : python_only (mret a).
Proof. intros e [=]. Qed.

Lemma python_only_raise {A} e : python_error e = true → python_only (raise (A := A) e).
Proof. by intros H e' [= <-]. Qed.

Lemma python_only_bind {A B} (m : M A) (f : A → M B) :
  python_only m → (∀ a, python_only (f a)) → python_only (m ≫= f).
Proof.
  unfold python_only, mbind, M_bind. intros Hm Hf e.
  destruct m as [t [e'|a]]; simpl; [by intros [= <-]; apply Hm | apply Hf].
Qed.

Lemma python_only_mapM {A B} (f : A → M B) (l : list A) :
  (∀ a, python_only (f a)) → python_only (mapM f l).
Proof.
  intros Hf. induction l as [|a l IH]; simpl; [apply python_only_mret|].
  apply python_only_bind; [apply Hf|]. intros b.
  apply python_only_bind; [apply IH|]. intros k. apply python_only_mret.
Qed.

Lemma python_only_emit k : python_only (emit k).
Proof. intros e [=]. Qed.

Lemma quiet_mret {A} (a : A) : quiet (mret a).
Proof. split; [done | apply python_only_mret]. Qed.

Lemma quiet_raise {A} e : python_error e = true → quiet (raise (A := A) e).
Proof. split; [done | by apply python_only_raise]. Qed.

Lemma quiet_bind {A B} (m : M A) (f : A → M B) :
  quiet m → (∀ a, quiet (f a)) → quiet (m ≫= f).
Proof.
  intros [Ht He] Hf. split; [|apply python_only_bind; [done | intros a; apply Hf]].
  unfold mbind, M_bind. destruct m as [t [e|a]]; simpl in *; [done|].
  rewrite Ht. apply Hf.
Qed.

Lemma quiet_mapM {A B} (f : A → M B) (l : list A) :
  (∀ a, quiet (f a)) → quiet (mapM f l).
Proof.
  intros Hf. induction l as [|a l IH]; simpl; [apply quiet_mret|].
  apply quiet_bind; [apply Hf|]. intros b.
  apply quiet_bind; [apply IH|]. intros k. apply quiet_mret.
Qed.

Lemma quiet_getitem {A} (l : list A) i : quiet (getitem l i).
Proof. unfold getitem. destruct (py_nth l i); [apply quiet_mret | by apply quiet_raise]. Qed.

Lemma quiet_setitem {A} (l : list A) i v : quiet (setitem l i v).
Proof.
  unfold setitem. destruct (_ && _); [apply quiet_mret | by apply quiet_raise].
Qed.

Lemma quiet_int_of d : quiet (int_of d).
Proof. destruct d; [apply quiet_mret | by apply quiet_raise]. Qed.

Lemma quiet_input (input_dict : gmap string handle) n i : quiet (input input_dict n i).
Proof.
  unfold input. apply quiet_bind; [apply quiet_getitem|]. intros key.
  destruct (input_dict !! key); [apply quiet_mret | by apply quiet_raise].
Qed.

Lemma quiet_data_formats B x_rank : quiet (data_formats B x_rank).
Proof.
  unfold data_formats.
  destruct (get_data_format B x_rank); [apply quiet_mret | by apply quiet_raise].
Qed.

Lemma python_only_getitem {A} (l : list A) i : python_only (getitem l i).
Proof. apply quiet_python_only, quiet_getitem. Qed.
Lemma python_only_setitem {A} (l : list A) i v : python_only (setitem l i v).
Proof. apply quiet_python_only, quiet_setitem. Qed.
Lemma python_only_int_of d : python_only (int_of d).
Proof. apply quiet_python_only, quiet_int_of. Qed.
Lemma python_only_input (input_dict : gmap string handle) n i :
  python_only (input input_dict n i).
Proof. apply quiet_python_only, quiet_input. Qed.

Create HintDb quiet.
#[local] Hint Resolve quiet_mret quiet_getitem quiet_setitem quiet_int_of
  quiet_input quiet_data_formats python_only_mret python_only_emit python_only_getitem
  python_only_setitem python_only_int_of python_only_input : quiet.

(** Decomposes a goal [quiet m] or [python_only m] along the binds, loops
    and branches of [m]. *)
Ltac effects :=
  repeat first
    [ progress intros
    | match goal with
      | |- quiet (mbind _ _) => apply quiet_bind
      | |- quiet (mapM _ _) => apply quiet_mapM
      | |- quiet (raise _) => apply quiet_raise; reflexivity
      | |- python_only (mbind _ _) => apply python_only_bind
      | |- python_only (mapM _ _) => apply python_only_mapM
      | |- python_only (raise _) => apply python_only_raise; reflexivity
      | |- quiet (if ?b then _ else _) => destruct b
      | |- python_only (if ?b then _ else _) => destruct b
      | |- quiet (match ?x with _ => _ end) => destruct x
      | |- python_only (match ?x with _ => _ end) => destruct x
      end
    | solve [auto with quiet]
    | solve [apply quiet_python_only; auto with quiet] ].

Lemma python_only_transpose a perm : python_only (tf.transpose a perm).
Proof. intros e [=]. Qed.
Lemma python_only_pad a p : python_only (tf.pad a p).
Proof. intros e [=]. Qed.
Lemma python_only_split a num axis : python_only (tf.split a num axis).
Proof. intros e [=]. Qed.
Lemma python_only_convolution x w p s d f : python_only (tf.nn_convolution x w p s d f).
Proof. intros e [=]. Qed.
Lemma python_only_conv_transpose c x w o s p f :
  python_only (tf.conv_transpose c x w o s p f).
Proof. intros e [=]. Qed.
Lemma python_only_concat l axis : python_only (tf.concat l axis).
Proof. intros e [=]. Qed.
Lemma python_only_slice a b s : python_only (tf.slice a b s).
Proof. intros e [=]. Qed.
Lemma python_only_add a b : python_only (tf.add a b).
Proof. intros e [=]. Qed.
Lemma python_only_shape_at x i : python_only (tf.shape_at x i).
Proof. intros e [=]. Qed.
Lemma python_only_stack l : python_only (tf.stack l).
Proof. intros e [=]. Qed.
Lemma python_only_get_padding_as_op x p : python_only (get_padding_as_op x p).
Proof. intros e [=]. Qed.
Lemma python_only_explicit_broadcast x y a : python_only (explicit_broadcast x y a).
Proof. intros e [=]. Qed.

#[local] Hint Resolve python_only_transpose python_only_pad python_only_split
  python_only_convolution python_only_conv_transpose python_only_concat
  python_only_slice python_only_add python_only_shape_at python_only_stack
  python_only_get_padding_as_op python_only_explicit_broadcast : quiet.

Lemma python_only_fast_path B n input_dict fr x pad_mode :
  python_only (fast_path B n input_dict fr x pad_mode).
Proof. unfold fast_path. effects. Qed.

Lemma python_only_reassemble B n input_dict fr x convolved :
  python_only (reassemble B n input_dict fr x convolved).
Proof. unfold reassemble. effects. Qed.

Lemma python_only_conv_groups n fr pad_mode xs weight_groups :
  python_only (conv_groups n fr pad_mode xs weight_groups).
Proof. unfold conv_groups. effects. Qed.

Lemma get_conv_func_supported fr :
  supported_rank fr = true → quiet (get_conv_func fr).
Proof.
  unfold supported_rank, get_conv_func. intros H.
  destruct (spatial_size fr =? 1); [effects|].
  destruct (spatial_size fr =? 2); [effects|].
  destruct (spatial_size fr =? 3); [effects | done].
Qed.

Lemma get_conv_func_unsupported fr :
  supported_rank fr = false → get_conv_func fr = raise NotImplementedError.
Proof.
  unfold supported_rank, get_conv_func. intros H.
  destruct (spatial_size fr =? 1); [done|].
  destruct (spatial_size fr =? 2); [done|].
  by destruct (spatial_size fr =? 3).
Qed.

Lemma quiet_notset_extents n fr xs : quiet (notset_extents n fr xs).
Proof. unfold notset_extents. effects. Qed.

Lemma quiet_auto_extents fr pad_mode xs ws : quiet (auto_extents fr pad_mode xs ws).
Proof. unfold auto_extents. effects. Qed.

Lemma python_only_process_dynamic_batch_size x l i :
  python_only (process_dynamic_batch_size x l i).
Proof. unfold process_dynamic_batch_size, handle_dynamic_batch_size. effects. Qed.

Lemma process_dynamic_batch_size_cases x l i :
  process_dynamic_batch_size x l i = raise IndexError
  ∨ process_dynamic_batch_size x l i = Run [] (inr (ShapeList l))
  ∨ ∃ l', process_dynamic_batch_size x l i = Run dynamic_batch_ops (inr (Stack l')).
Proof.
  unfold process_dynamic_batch_size, handle_dynamic_batch_size, getitem, setitem.
  destruct (py_nth l i) as [[z|]|] eqn:E; [right; by left | | by left].
  rewrite bind_mret. right. right. rewrite length_fmap.
  unfold py_nth in E. destruct (_ && _); [|done]. by eexists.
Qed.

Lemma quiet_process_dynamic_batch_size_unbound l i :
  quiet (process_dynamic_batch_size_unbound l i).
Proof. unfold process_dynamic_batch_size_unbound. effects. Qed.

Lemma python_only_remove_pads fr x conv_rs : python_only (remove_pads fr x conv_rs).
Proof.
  unfold remove_pads. effects. apply python_only_process_dynamic_batch_size.
Qed.

#[local] Hint Resolve quiet_notset_extents quiet_auto_extents
  quiet_process_dynamic_batch_size_unbound python_only_process_dynamic_batch_size python_only_remove_pads
  python_only_fast_path python_only_reassemble python_only_conv_groups : quiet.

Lemma python_only_conv_transpose_group n fr pad_mode x weight :
  supported_rank fr = true →
  python_only (conv_transpose_group n fr pad_mode x weight).
Proof.
  intros H. pose proof (quiet_python_only _ (get_conv_func_supported _ H)).
  unfold conv_transpose_group. effects.
Qed.

Lemma python_only_conv_transpose_groups n fr pad_mode pairs x convolved :
  supported_rank fr = true →
  python_only (conv_transpose_groups n fr pad_mode pairs x convolved).
Proof.
  intros H. revert x convolved.
  induction pairs as [|[x' w] pairs IH]; intros x convolved; simpl; [effects|].
  apply python_only_bind; [by apply python_only_conv_transpose_group|].
  intros conv_rs. apply IH.
Qed.

Lemma wp_conv_transpose_group n fr pad_mode x weight :
  supported_rank fr = false →
  wp (conv_transpose_group n fr pad_mode x weight) rank_failure.
Proof.
  intros H. unfold conv_transpose_group.
  apply wp_bind, wp_quiet; [effects | by left |]. intros xs _.
  apply wp_bind, wp_quiet; [effects | by left |]. intros batch _.
  destruct (String.eqb pad_mode "NOTSET").
  - apply wp_bind, wp_quiet; [effects | by left |]. intros extents _.
    apply wp_bind, wp_quiet; [effects | by left |]. intros c _.
    apply wp_bind.
    destruct (process_dynamic_batch_size_cases x
      (py_insert (compute_c_idx fr) c ([batch] ++ extents))
      (find (storage_format fr) "N")) as [-> | [-> | [l' ->]]];
      [by left | |]; unfold wp; simpl;
      rewrite (get_conv_func_unsupported _ H); right; split; auto.
  - apply wp_bind, wp_quiet; [effects | by left |]. intros extents _.
    apply wp_bind, wp_quiet; [effects | by left |]. intros c _.
    apply wp_bind, wp_quiet; [effects | by left |]. intros s _.
    unfold wp. simpl. rewrite (get_conv_func_unsupported _ H). right. auto.
Qed.

Lemma wp_conv_transpose_groups n fr pad_mode pairs x convolved :
  supported_rank fr = false →
  wp (conv_transpose_groups n fr pad_mode pairs x convolved)
     (λ t r, match r with inl _ => rank_failure t r | inr _ => t = [] end).
Proof.
  intros H. destruct pairs as [|[x' w] pairs]; simpl; [done|].
  apply wp_bind. pose proof (wp_conv_transpose_group n fr pad_mode x' w H) as Hb.
  unfold wp in *. by destruct (outcome _).
Qed.

Lemma derive_pad_mode_cases n transpose fr x :
  derive_pad_mode n transpose fr x = raise ValueError
  ∨ (transpose = true ∧ derive_pad_mode n transpose fr x = raise OpUnsupported)
  ∨ (∃ pad_mode, derive_pad_mode n transpose fr x = Run [] (inr (x, pad_mode)))
  ∨ (transpose = false
     ∧ ∃ pad_mode, derive_pad_mode n transpose fr x
                   = Run [OpPad] (inr (PaddingAsOp x (pads fr), pad_mode))).
Proof.
  unfold derive_pad_mode.
  assert (∀ auto_pad, attr_auto_pad (attrs n) = auto_pad →
          auto_pad = None ∨ auto_pad = Some "NOTSET" ∨ auto_pad = Some "SAME_UPPER"
          ∨ auto_pad = Some "VALID" ∨ auto_pad = Some "SAME_LOWER"
          ∨ ∃ a, auto_pad = Some a ∧ String.eqb a "NOTSET" = false
                 ∧ String.eqb a "SAME_UPPER" = false ∧ String.eqb a "VALID" = false
                 ∧ String.eqb a "SAME_LOWER" = false) as Hcases.
  { intros [a|] _; [|by left]. right.
    destruct (String.eqb_spec a "NOTSET") as [->|?]; [by left|]. right.
    destruct (String.eqb_spec a "SAME_UPPER") as [->|?]; [by left|]. right.
    destruct (String.eqb_spec a "VALID") as [->|?]; [by left|]. right.
    destruct (String.eqb_spec a "SAME_LOWER") as [->|?]; [by left|]. right.
    exists a. repeat split; by apply String.eqb_neq. }
  destruct (Hcases _ eq_refl) as [-> | [-> | [-> | [-> | [-> | (a & -> & E1 & E2 & E3 & E4)]]]]].
  - destruct transpose; simpl; [right; right; left; by eexists|].
    destruct (list_Z_eqb _ _); simpl; [right; right; left; by eexists|].
    right; right; right. split; [done|]. by eexists.
  - destruct transpose; simpl; [right; right; left; by eexists|].
    destruct (list_Z_eqb _ _); simpl; [right; right; left; by eexists|].
    right; right; right. split; [done|]. by eexists.
  - right; right; left. by eexists.
  - right; right; left. by eexists.
  - destruct transpose; simpl; [right; left; done|]. right; right; left. by eexists.
  - rewrite E1, E2, E3, E4. by left.
Qed.

Lemma wp_run_bind {A B} t (a : A) (f : A → M B) Q :
  wp (f a) (λ t' r', Q (t ++ t') r') → wp (Run t (inr a) ≫= f) Q.
Proof. intros H. by apply wp_bind. Qed.

Lemma wp_grouped_path B n transpose fr x pad_mode group :
  wp (grouped_path B n transpose fr x pad_mode group)
     (λ t r, ∀ e, r = inl e → translation_failure e = true →
             partition_failure transpose (support_cuda fr) e t).
Proof.
  unfold grouped_path.
  change (tf.split (weights fr) group (-1))
    with (Run [OpSplit]
            (inr (SplitOut (weights fr) group (-1) <$> seq 0 (Z.to_nat group)))).
  apply wp_run_bind.
  set (wg := SplitOut (weights fr) group (-1) <$> seq 0 (Z.to_nat group)).
  assert (∃ x' xs,
    (if support_cuda fr
     then xs ← tf.split x group 1; mret (x, xs)
     else x ← tf.transpose x
                (get_perm_from_formats B (storage_format fr) (compute_format fr));
          xs ← tf.split x group (-1); mret (x, xs))
    = Run (tail (partition_ops (support_cuda fr))) (inr (x', xs))) as (x' & xs & ->).
  { destruct (support_cuda fr); by do 2 eexists. }
  apply wp_run_bind.
  assert ([OpSplit] ++ tail (partition_ops (support_cuda fr))
          = partition_ops (support_cuda fr)) as Hops
    by (by destruct (support_cuda fr)).
  destruct transpose.
  - destruct (negb (list_Z_eqb _ _)).
    + unfold wp. simpl. intros e [= <-] _. split; [done|]. left.
      split; [done|]. by destruct (support_cuda fr).
    + destruct (supported_rank fr) eqn:Hrank.
      * apply wp_python_only;
          [by apply python_only_conv_transpose_groups| |by intros].
        intros t e He e' [= <-]. by destruct e.
      * pose proof (wp_conv_transpose_groups n fr pad_mode (zip xs wg) x' [] Hrank)
          as Hloop.
        unfold wp in *.
        destruct (outcome _) as [e|a]; [|by intros].
        intros e' [= <-] He'. split; [done|]. right.
        destruct Hloop as [Hpy | [-> Ht]]; [by destruct e|].
        split; [done|]. rewrite !app_assoc, Hops.
        destruct Ht as [-> | ->]; [left; by rewrite app_nil_r | by right].
  - apply wp_python_only; [effects | | by intros].
    intros t e He e' [= <-]. by destruct e.
Qed.

Lemma wp_conv_with_locals B n input_dict transpose fr x :
  wp (conv_with_locals B n input_dict transpose fr x)
     (λ t r, ∀ e, r = inl e → translation_failure e = true →
             failure_trace (support_cuda fr) e (OpTranspose :: t)).
Proof.
  assert (∀ A t e e', inl e = @inl _ A e' → python_error e = true →
            translation_failure e' = true →
            failure_trace (support_cuda fr) e' t) as Hpy.
  { intros A t e e' [= <-] He. by destruct e. }
  unfold conv_with_locals.
  destruct (derive_pad_mode_cases n transpose fr x)
    as [-> | [[-> ->] | [[pad_mode ->] | [-> [pad_mode ->]]]]].
  - unfold wp. simpl. by intros e [= <-] _.
  - unfold wp. simpl. by intros e [= <-] _.
  - apply wp_run_bind. destruct (_ && _).
    + apply wp_python_only; [apply python_only_fast_path | by eauto | by intros].
    + apply wp_bind.
      pose proof (wp_grouped_path B n transpose fr x pad_mode
                    (default 1 (attr_group (attrs n)))) as Hg.
      unfold wp in *. cbv beta.
      destruct (outcome (grouped_path _ _ _ _ _ _ _)) as [e|[x' convolved]].
      * intros e' [= <-] He. destruct (Hg e eq_refl He) as [_ Hf].
        destruct Hf as [[-> ->] | [-> [-> | ->]]]; simpl; auto.
      * apply (wp_python_only (reassemble B n input_dict fr x' convolved));
          [apply python_only_reassemble | by eauto | by intros].
  - apply wp_run_bind. rewrite andb_true_r.
    destruct (_ =? _).
    + apply wp_python_only; [apply python_only_fast_path | by eauto | by intros].
    + apply wp_bind.
      pose proof (wp_grouped_path B n false fr (PaddingAsOp x (pads fr)) pad_mode
                    (default 1 (attr_group (attrs n)))) as Hg.
      unfold wp in *. cbv beta.
      destruct (outcome (grouped_path _ _ _ _ _ _ _)) as [e|[x' convolved]].
      * intros e' [= <-] He. by destruct (Hg e eq_refl He) as [? _].
      * apply (wp_python_only (reassemble B n input_dict fr x' convolved));
          [apply python_only_reassemble | by eauto | by intros].
Qed.

Lemma wp_conv B n input_dict transpose :
  wp (conv B n input_dict transpose)
     (λ t r, ∀ e, r = inl e → translation_failure e = true →
             failure_trace (supports_device B "CUDA") e t).
Proof.
  assert (∀ A t e e', inl e = @inl _ A e' → python_error e = true →
            translation_failure e' = true →
            failure_trace (supports_device B "CUDA") e' t) as Hpy.
  { intros A t e e' [= <-] He. by destruct e. }
  unfold conv.
  apply wp_bind, wp_quiet; [effects | by eauto |]. intros x _.
  apply wp_bind, wp_quiet; [effects | by eauto |]. intros [storage compute] _.
  apply wp_bind, wp_quiet; [effects | by eauto |]. intros in_weights _.
  apply wp_bind. unfold wp at 1.
  assert (emitted (resolve_kernel_shape n in_weights) = []) as ->.
  { unfold resolve_kernel_shape. destruct (attr_kernel_shape _); [|done].
    by destruct (list_dim_eqb _ _). }
  destruct (outcome (resolve_kernel_shape n in_weights)) as [e|kernel_shape] eqn:Hk.
  { unfold resolve_kernel_shape in Hk. destruct (attr_kernel_shape _); [|done].
    destruct (list_dim_eqb _ _); [done|]. injection Hk as <-. by intros e' [= <-]. }
  match goal with
  | |- context [tf.transpose ?a ?p] =>
      change (tf.transpose a p) with (Run [OpTranspose] (inr (Transpose a p)))
  end.
  apply wp_run_bind.
  match goal with
  | |- context [conv_with_locals B n input_dict transpose ?fr x] =>
      apply (wp_conv_with_locals B n input_dict transpose fr x)
  end.
Qed.

(** C2, as the code has it: when the translation fails (unsupported padding,
    invalid auto_pad, incompatible dilation, unimplemented rank), the
    transposition of the weights has already been emitted; for the last two
    failures so have the splits of weights and input (with the transposition
    of the input when the accelerated path is unavailable), and for the last
    one the runtime lookup of a dynamic batch size.  No pad, convolution,
    concat, slice, add or broadcast has been emitted. *)
Theorem failure_after_weights_transposed B n input_dict transpose t e :
  conv B n input_dict transpose = Run t (inl e) →
  translation_failure e = true →
  failure_trace (supports_device B "CUDA") e t
  ∧ hd_error t = Some OpTranspose
  ∧ forallb setup_op t = true.
Proof.
  intros Hrun He. pose proof (wp_conv B n input_dict transpose) as H.
  unfold wp in H. rewrite Hrun in H. specialize (H e eq_refl He).
  split; [done|].
  destruct e; try discriminate; simpl in H.
  - by subst.
  - by subst.
  - subst. by destruct (supports_device B "CUDA").
  - destruct H as [-> | ->]; by destruct (supports_device B "CUDA").
Qed.

Lemma failure_after_weights_transposed_witness :
  failure_trace false RuntimeError [OpTranspose; OpSplit; OpTranspose; OpSplit]
  ∧ hd_error [OpTranspose; OpSplit; OpTranspose; OpSplit] = Some OpTranspose
  ∧ forallb setup_op [OpTranspose; OpSplit; OpTranspose; OpSplit] = true.
Proof.
  apply (failure_after_weights_transposed fallback
           (Node ["X"; "W"]
              (Attributes None None (Some [2; 2]) None None None None None))
           tensors true).
  - vm_compute. reflexivity.
  - reflexivity.
Defined.

(** C2 as stated fails: a transposed convolution with a dilation of 2 is
    rejected after a transposition, a split, a transposition and a split have
    been emitted. *)
Lemma dilation_failure_after_partition :
  conv fallback
    (Node ["X"; "W"] (Attributes None None (Some [2; 2]) None None None None None))
    tensors true
  = Run [OpTranspose; OpSplit; OpTranspose; OpSplit] (inl RuntimeError)
  ∧ emitted (conv fallback
      (Node ["X"; "W"]
         (Attributes None None (Some [2; 2]) None None None None None))
      tensors true) ≠ [].
Proof. split; [vm_compute; reflexivity | vm_compute; discriminate]. Qed.

(** ** Padding mode of a transposed convolution *)

Lemma derive_pad_mode_transpose_known n fr x :
  auto_pad_known n = true →
  ∃ pad_mode, derive_pad_mode n true fr x = Run [] (inr (x, pad_mode)).
Proof.
  unfold auto_pad_known, derive_pad_mode. destruct (attr_auto_pad (attrs n)) as [a|].
  - destruct (String.eqb a "NOTSET"); [by eexists|].
    destruct (String.eqb a "SAME_UPPER"); [by eexists|].
    destruct (String.eqb a "VALID"); [by eexists | done].
  - by eexists.
Qed.

Lemma outcome_bind_inl {A B} (m : M A) (f : A → M B) e :
  outcome m = inl e → outcome (m ≫= f) = inl e.
Proof. unfold mbind, M_bind. by intros ->. Qed.

Lemma outcome_bind_inr {A B} (m : M A) (f : A → M B) a :
  outcome m = inr a → outcome (m ≫= f) = outcome (f a).
Proof. unfold mbind, M_bind. by intros ->. Qed.

(** ** SAME_LOWER on a convolution that is not transposed *)

(** C4: on an input of rank 5 (three spatial axes) with [auto_pad]
    SAME_LOWER and every stride equal to 1, the specification asks for the padding
    mode SAME and no explicit pad.  The code compares the strides with
    [[1, 1]]: it pads with the four rows of a rank-4 tensor and computes in
    mode VALID. *)
Theorem same_lower_rank_3_unit_strides :
  conv accelerated
    (Node ["X5"; "W5"]
       (Attributes None None None None None (Some "SAME_LOWER") None None))
    tensors false
  = Run [OpTranspose; OpPad; OpConvolution]
      (inr [Convolution
              (Pad (Input X5) [[0; 0]; [0; 0]; [1; 1]; [1; 1]])
              (Transpose (Input W5) [2; 3; 4; 1; 0])
              "VALID" [1; 1; 1] [1; 1; 1] "NCDHW"]).
Proof. vm_compute. reflexivity. Qed.

(** The same on an input of rank 3 (one spatial axis). *)
Example same_lower_rank_1_unit_stride :
  conv accelerated
    (Node ["X3"; "W3"]
       (Attributes None None None None None (Some "SAME_LOWER") None None))
    tensors false
  = Run [OpTranspose; OpPad; OpConvolution]
      (inr [Convolution
              (Pad (Input X3) [[0; 0]; [0; 0]; [1; 1]; [1; 1]])
              (Transpose (Input W3) [2; 1; 0])
              "VALID" [1] [1] "NCW"]).
Proof. vm_compute. reflexivity. Qed.

(** On an input of rank 4 the test is whether some stride is not 1. *)
Lemma same_lower_strided_rank_2 n fr :
  attr_auto_pad (attrs n) = Some "SAME_LOWER" →
  length (strides fr) = 2%nat →
  same_lower_strided n fr = negb (forallb (Z.eqb 1) (strides fr)).
Proof.
  intros Hpad Hlen. unfold same_lower_strided, auto_pad_is, list_Z_eqb.
  rewrite Hpad. simpl.
  destruct (strides fr) as [|a [|b [|c l]]]; try done.
  cbn [forallb]. rewrite andb_true_r. f_equal.
  destruct (Z.eqb_spec 1 a) as [<-|Ha], (Z.eqb_spec 1 b) as [<-|Hb]; cbn [andb].
  - by apply bool_decide_eq_true_2.
  - apply bool_decide_eq_false_2. intros [= ?]. congruence.
  - apply bool_decide_eq_false_2. intros [= ?]. congruence.
  - apply bool_decide_eq_false_2. intros [= ? ?]. congruence.
Qed.

(** ** Layout *)

(** C9: for a plain convolution (group 1, no bias) without the accelerated
    path, the specification asks for a transposition of the input into the compute
    layout whenever the output is transposed back.  The code convolves the
    input as it is, in storage layout, and transposes only the output. *)
Theorem fast_path_transposes_output_only :
  conv fallback (Node ["X"; "W"] no_attrs) tensors false
  = Run [OpTranspose; OpConvolution; OpTranspose]
      (inr [Transpose
              (Convolution (Input X) (Transpose (Input W) [2; 3; 1; 0])
                 "VALID" [1; 1] [1; 1] "NHWC")
              [0; 3; 1; 2]]).
Proof. vm_compute. reflexivity. Qed.

(** With two groups the input is transposed before it is split. *)
Example grouped_path_transposes_input :
  conv fallback
    (Node ["X"; "W"] (Attributes None None None None (Some 2) None None None))
    tensors false
  = Run [OpTranspose; OpSplit; OpTranspose; OpSplit; OpConvolution; OpConvolution;
         OpConcat; OpTranspose]
      (inr [Transpose
              (Concat
                 [Convolution
                    (SplitOut (Transpose (Input X) [0; 2; 3; 1]) 2 (-1) 0)
                    (SplitOut (Transpose (Input W) [2; 3; 1; 0]) 2 (-1) 0)
                    "VALID" [1; 1] [1; 1] "NHWC";
                  Convolution
                    (SplitOut (Transpose (Input X) [0; 2; 3; 1]) 2 (-1) 1)
                    (SplitOut (Transpose (Input W) [2; 3; 1; 0]) 2 (-1) 1)
                    "VALID" [1; 1] [1; 1] "NHWC"]
                 (-1))
              [0; 3; 1; 2]]).
Proof. vm_compute. reflexivity. Qed.

(** ** Output shape of a transposed convolution *)

(** C5: on an input of rank 5 (three spatial axes) with [output_shape]
    [6, 7, 8] and [pads] [1, 2, 3, 1, 2, 3], the specification asks for the spatial
    extents [6+1+1, 7+2+2, 8+3+3].  The code reads [output_shape[-2:]]: the
    primitive is given the two extents [7+1+1] and [8+2+2]. *)
Theorem output_shape_rank_3_last_two :
  conv accelerated
    (Node ["X5"; "W5"]
       (Attributes None None None (Some [1; 2; 3; 1; 2; 3]) None None
          (Some [6; 7; 8]) None))
    tensors true
  = Run [OpTranspose; OpSplit; OpSplit; OpConvTranspose; OpSlice; OpConcat]
      (inr [Concat
              [Slice
                 (ConvTranspose conv3d_transpose
                    (SplitOut (Input X5) 1 1 0)
                    (SplitOut (Transpose (Input W5) [2; 3; 4; 1; 0]) 1 (-1) 0)
                    (ShapeList [Some 1; Some 2; Some 9; Some 12])
                    (StridesList [1; 1; 1; 1; 1]) "VALID" "NCDHW")
                 [0; 0; 1; 2; 3]
                 (ShapeList [Some 1; Some 2; Some 7; Some 8])]
              1]).
Proof. vm_compute. reflexivity. Qed.

(** ** Successful runs *)

Lemma outcome_bind_inv {A B} (m : M A) (f : A → M B) b :
  outcome (m ≫= f) = inr b → ∃ a, outcome m = inr a ∧ outcome (f a) = inr b.
Proof.
  unfold mbind, M_bind. destruct (outcome m) as [e|a]; [done|]. by exists a.
Qed.

Lemma outcome_mret_inv {A} (a b : A) : outcome (mret a) = inr b → a = b.
Proof. by intros [=]. Qed.

Lemma outcome_getitem_inv {A} (l : list A) i a :
  outcome (getitem l i) = inr a → py_nth l i = Some a.
Proof. unfold getitem. destruct (py_nth l i); [by intros [= ->] | done]. Qed.

Lemma outcome_int_of_inv d z : outcome (int_of d) = inr z → d = Some z.
Proof. destruct d; [by intros [= ->] | done]. Qed.

Lemma outcome_mapM_inv {A B} (f : A → M B) (l : list A) r :
  outcome (mapM f l) = inr r → Forall2 (λ a b, outcome (f a) = inr b) l r.
Proof.
  revert r. induction l as [|a l IH]; intros r; simpl.
  - intros [= <-]. constructor.
  - intros H. apply outcome_bind_inv in H as (b & Hb & H).
    apply outcome_bind_inv in H as (k & Hk & H).
    apply outcome_mret_inv in H as <-. constructor; [done | by apply IH].
Qed.

(** Splits a hypothesis [outcome m = inr r] along the binds of [m]. *)
Ltac invert_run H :=
  repeat match type of H with
  | outcome (mbind _ _) = inr _ =>
      let a := fresh "a" in
      let Ha := fresh "Ha" in
      apply outcome_bind_inv in H as (a & Ha & H);
      first [ apply outcome_getitem_inv in Ha
            | apply outcome_int_of_inv in Ha; subst
            | idtac ]
  | outcome (mret _) = inr _ => apply outcome_mret_inv in H
  end.

(** *** What a run emits *)

Lemma emits_only_bind {A B} P (m : M A) (f : A → M B) :
  emits_only P m → (∀ a, emits_only P (f a)) → emits_only P (m ≫= f).
Proof.
  unfold emits_only, mbind, M_bind. intros Hm Hf.
  destruct (outcome m) as [e|a]; simpl; [done|].
  rewrite forallb_app, Hm. apply Hf.
Qed.

Lemma emits_only_quiet {A} P (m : M A) : quiet m → emits_only P m.
Proof. intros [Ht _]. unfold emits_only. by rewrite Ht. Qed.

Lemma emits_only_mret {A} P (a : A) : emits_only P (mret a).
Proof. done. Qed.

Lemma emits_only_raise {A} P e : emits_only P (raise (A := A) e).
Proof. done. Qed.

Lemma emits_only_mapM {A B} P (f : A → M B) (l : list A) :
  (∀ a, emits_only P (f a)) → emits_only P (mapM f l).
Proof.
  intros Hf. induction l as [|a l IH]; simpl; [done|].
  apply emits_only_bind; [apply Hf|]. intros b.
  apply emits_only_bind; [apply IH|]. intros k. done.
Qed.

(** Decomposes a goal [emits_only P m] for a concrete [P]. *)
Ltac emission :=
  repeat first
    [ progress intros
    | match goal with
      | |- emits_only _ (mbind _ _) => apply emits_only_bind
      | |- emits_only _ (mapM _ _) => apply emits_only_mapM
      | |- emits_only _ (mret _) => apply emits_only_mret
      | |- emits_only _ (raise _) => apply emits_only_raise
      | |- emits_only _ (if ?b then _ else _) => destruct b
      | |- emits_only _ (match ?x with _ => _ end) => destruct x
      end
    | solve [apply emits_only_quiet; effects]
    | reflexivity ].

Lemma emits_only_get_conv_func P fr : emits_only P (get_conv_func fr).
Proof. unfold get_conv_func. emission. Qed.

Lemma no_slice_conv_transpose_group n fr pad_mode x weight :
  String.eqb pad_mode "NOTSET" = false →
  emits_only not_slice (conv_transpose_group n fr pad_mode x weight).
Proof.
  intros H. unfold conv_transpose_group. rewrite H.
  emission; apply emits_only_get_conv_func.
Qed.

Lemma no_slice_conv_transpose_groups n fr pad_mode pairs x convolved :
  String.eqb pad_mode "NOTSET" = false →
  emits_only not_slice (conv_transpose_groups n fr pad_mode pairs x convolved).
Proof.
  intros H. revert x convolved.
  induction pairs as [|[x' w] pairs IH]; intros x convolved; simpl; [done|].
  apply emits_only_bind; [by apply no_slice_conv_transpose_group|].
  intros r. apply IH.
Qed.

(** *** The partition into groups *)

Lemma grouped_path_partition B n transpose fr x pad_mode group :
  grouped_path B n transpose fr x pad_mode group
  = (Run (partition_ops (support_cuda fr)) (inr ())
     ≫= λ _,
       if transpose then
         if negb (list_Z_eqb (dilations fr) (times [1] (spatial_size fr)))
         then raise RuntimeError
         else conv_transpose_groups n fr pad_mode
                (zip (input_groups B fr x group) (weight_groups fr group))
                (compute_input B fr x) []
       else
         convolved ← conv_groups n fr pad_mode (input_groups B fr x group)
                       (weight_groups fr group);
         mret (compute_input B fr x, convolved)).
Proof.
  unfold grouped_path, input_groups, weight_groups, compute_input, channel_axis.
  destruct (support_cuda fr); reflexivity.
Qed.

Lemma conv_transpose_groups_inv n fr pad_mode pairs x convolved x_last result :
  outcome (conv_transpose_groups n fr pad_mode pairs x convolved)
  = inr (x_last, result) →
  last (x :: pairs.*1) = Some x_last
  ∧ ∃ rs, result = convolved ++ rs
          ∧ Forall2 (λ p r, outcome (conv_transpose_group n fr pad_mode p.1 p.2)
                            = inr r) pairs rs.
Proof.
  revert x convolved. induction pairs as [|[x' w] pairs IH]; intros x convolved; simpl.
  - intros [= <- <-]. split; [done|]. exists []. by rewrite app_nil_r.
  - intros H. apply outcome_bind_inv in H as (r & Hr & H).
    apply IH in H as (Hlast & rs & -> & Hrs). split.
    + done.
    + exists (r :: rs). split; [by rewrite <- app_assoc|]. by constructor.
Qed.

(** *** A group of a transposed convolution with an automatic padding *)

Lemma static_shape_process_dynamic_batch_size x l i s :
  outcome (process_dynamic_batch_size x l i) = inr s → static_shape s = l.
Proof.
  unfold process_dynamic_batch_size, handle_dynamic_batch_size, getitem, setitem.
  destruct (py_nth l i) as [[z|]|] eqn:E; [by intros [= <-] | | done].
  rewrite bind_mret. rewrite length_fmap.
  unfold py_nth in E. destruct (_ && _); [|done].
  simpl. intros [= <-]. simpl.
  rewrite list_fmap_insert. simpl. rewrite <- list_fmap_compose.
  change (static_dim ∘ Lit) with (@id dim). rewrite list_fmap_id.
  by apply list_insert_id.
Qed.

Lemma static_shape_process_dynamic_batch_size_unbound l i s :
  outcome (process_dynamic_batch_size_unbound l i) = inr s → static_shape s = l.
Proof.
  unfold process_dynamic_batch_size_unbound, getitem.
  destruct (py_nth l i) as [[z|]|]; [by intros [= <-] | done | done].
Qed.

Lemma auto_extents_valid fr xs ws extents :
  outcome (auto_extents fr "VALID" xs ws) = inr extents →
  Forall2 (λ i v, ∃ s xi k, py_nth (strides fr) i = Some s
                            ∧ py_nth xs i = Some (Some xi)
                            ∧ py_nth ws i = Some (Some k)
                            ∧ v = Some (s * (xi - 1) + k))
    (range (spatial_size fr)) extents.
Proof.
  unfold auto_extents. simpl. intros H. apply outcome_mapM_inv in H.
  eapply Forall2_impl; [exact H|]. intros i v Hv. simpl in Hv.
  invert_run Hv. subst. by eexists _, _, _.
Qed.

Lemma auto_extents_same fr xs ws extents :
  outcome (auto_extents fr "SAME" xs ws) = inr extents →
  Forall2 (same_extent fr xs) (range (spatial_size fr)) extents.
Proof.
  unfold auto_extents. simpl. intros H. apply outcome_mapM_inv in H.
  eapply Forall2_impl; [exact H|]. intros i v Hv. simpl in Hv.
  invert_run Hv. subst. by eexists _, _.
Qed.

Lemma conv_transpose_group_auto n fr pad_mode x weight r :
  String.eqb pad_mode "NOTSET" = false →
  outcome (conv_transpose_group n fr pad_mode x weight) = inr r →
  ∃ xs extents,
    x_spatial_shape fr xs
    ∧ outcome (auto_extents fr pad_mode xs (get_shape (weights fr))) = inr extents
    ∧ transposed_call fr x weight pad_mode extents r.
Proof.
  intros Hmode H. unfold conv_transpose_group in H. rewrite Hmode in H.
  apply outcome_bind_inv in H as (xs & Hxs & H).
  apply outcome_mapM_inv in Hxs.
  apply outcome_bind_inv in H as (batch & Hbatch & H).
  apply outcome_getitem_inv in Hbatch.
  apply outcome_bind_inv in H as (extents & Hext & H).
  apply outcome_bind_inv in H as (c & Hc & H).
  apply outcome_getitem_inv in Hc.
  apply outcome_bind_inv in H as (s & Hs & H).
  apply static_shape_process_dynamic_batch_size_unbound in Hs.
  apply outcome_bind_inv in H as ([f st] & Hf & H).
  injection H as <-.
  exists xs, extents. split; [|split; [done|]].
  - eapply Forall2_impl; [exact Hxs|]. intros d v Hv.
    by apply outcome_getitem_inv in Hv.
  - by eexists f, s, st, batch, c.
Qed.

(** *** Python indexing *)

Lemma py_nth_nonneg {A} (l : list A) i : 0 ≤ i → py_nth l i = l !! Z.to_nat i.
Proof.
  intros Hi. unfold py_nth.
  destruct (Z.ltb_spec i 0) as [?|_]; [lia|].
  destruct (Z.leb_spec 0 i) as [_|?]; [|lia].
  destruct (Z.ltb_spec i (Z.of_nat (length l))) as [?|?]; simpl; [done|].
  symmetry. apply lookup_ge_None. lia.
Qed.

Lemma elem_of_range i n : i ∈ range n → 0 ≤ i < n.
Proof.
  unfold range. intros (k & -> & Hk)%list_elem_of_fmap.
  apply elem_of_seq in Hk. lia.
Qed.

Lemma Forall2_elem_of_l {A B} (P : A → B → Prop) l k :
  Forall2 P l k → Forall2 (λ a b, a ∈ l ∧ P a b) l k.
Proof.
  intros H. induction H as [|a b l k Hab H IH]; constructor.
  - split; [left | done].
  - eapply Forall2_impl; [exact IH|]. intros a' b' [? ?]. split; [by right | done].
Qed.

(** The leading entries of the shape of the permuted weights are the
    trailing dimensions of the weights. *)
Lemma weights_shape_kernel (w : handle) i v :
  0 ≤ i < Z.of_nat (length (shape w)) - 2 →
  py_nth (get_shape (Transpose (Input w)
                       (range_from 2 (Z.of_nat (length (shape w))) ++ [1; 0]))) i
  = Some v →
  py_nth (drop 2 (shape w)) i = Some v.
Proof.
  intros Hi. rewrite !py_nth_nonneg by lia. simpl get_shape.
  rewrite list_lookup_fmap, lookup_app_l.
  2:{ unfold range_from. rewrite length_fmap, length_seq. lia. }
  unfold range_from. rewrite list_lookup_fmap, lookup_seq_lt by lia. simpl.
  rewrite py_nth_nonneg by lia. rewrite lookup_drop.
  replace (Z.to_nat (2 + Z.of_nat (Z.to_nat i))) with (2 + Z.to_nat i)%nat by lia.
  destruct (shape w !! (2 + Z.to_nat i)%nat) as [v'|] eqn:E; simpl; [done|].
  apply lookup_ge_None in E. lia.
Qed.

(** *** Reassembly *)

Lemma reassemble_inv B n input_dict fr x convolved out :
  outcome (reassemble B n input_dict fr x convolved) = inr out →
  ∃ core, out = [to_storage B fr core]
          ∧ concat_and_bias input_dict n fr x convolved core.
Proof.
  unfold reassemble, concat_and_bias, to_storage, channel_axis. intros H.
  destruct (Nat.eqb_spec (length (inputs n)) 2) as [Hlen|Hlen].
  - destruct (support_cuda fr); injection H as <-; eexists; split; eauto.
  - apply outcome_bind_inv in H as (out' & H & <-%outcome_mret_inv).
    apply outcome_bind_inv in H as (bias & Hb & H).
    destruct (support_cuda fr); injection H as <-; eexists; split; eauto.
Qed.

(** *** The attributes [output_shape] and [output_padding] *)

Lemma conv_transpose_groups_output_attrs n os op fr pad_mode pairs x convolved :
  String.eqb pad_mode "NOTSET" = false →
  conv_transpose_groups (with_output_attrs os op n) fr pad_mode pairs x convolved
  = conv_transpose_groups n fr pad_mode pairs x convolved.
Proof.
  intros H. revert x convolved.
  induction pairs as [|[x' w] pairs IH]; intros x convolved; simpl; [done|].
  assert (conv_transpose_group (with_output_attrs os op n) fr pad_mode x' w
          = conv_transpose_group n fr pad_mode x' w) as ->
    by (unfold conv_transpose_group; by rewrite H).
  apply bind_ext. intros r. apply IH.
Qed.

Lemma derive_pad_mode_auto n fr x :
  (attr_auto_pad (attrs n) = Some "VALID" →
   derive_pad_mode n true fr x = Run [] (inr (x, "VALID")))
  ∧ (attr_auto_pad (attrs n) = Some "SAME_UPPER" →
     derive_pad_mode n true fr x = Run [] (inr (x, "SAME"))).
Proof. unfold derive_pad_mode. split; by intros ->. Qed.

Lemma conv_with_locals_output_attrs B n input_dict os op fr x :
  attr_auto_pad (attrs n) = Some "VALID"
  ∨ attr_auto_pad (attrs n) = Some "SAME_UPPER" →
  conv_with_locals B (with_output_attrs os op n) input_dict true fr x
  = conv_with_locals B n input_dict true fr x.
Proof.
  intros Hpad. unfold conv_with_locals.
  change (derive_pad_mode (with_output_attrs os op n) true fr x)
    with (derive_pad_mode n true fr x).
  assert (∃ pad_mode, derive_pad_mode n true fr x = Run [] (inr (x, pad_mode))
                      ∧ String.eqb pad_mode "NOTSET" = false)
    as (pad_mode & -> & Hmode).
  { destruct Hpad as [H | H];
      [rewrite (proj1 (derive_pad_mode_auto n fr x) H)
      |rewrite (proj2 (derive_pad_mode_auto n fr x) H)]; by eexists. }
  rewrite !bind_run_inr. rewrite !andb_false_r.
  rewrite !grouped_path_partition.
  change (attr_group (attrs (with_output_attrs os op n)))
    with (attr_group (attrs n)).
  by rewrite (conv_transpose_groups_output_attrs _ _ _ _ _ _ _ _ Hmode).
Qed.

Lemma conv_output_attrs B n input_dict os op :
  attr_auto_pad (attrs n) = Some "VALID"
  ∨ attr_auto_pad (attrs n) = Some "SAME_UPPER" →
  conv B (with_output_attrs os op n) input_dict true = conv B n input_dict true.
Proof.
  intros Hpad. unfold conv.
  change (input input_dict (with_output_attrs os op n))
    with (input input_dict n).
  apply bind_ext. intros x. apply bind_ext. intros [storage compute].
  apply bind_ext. intros in_weights.
  change (resolve_kernel_shape (with_output_attrs os op n) in_weights)
    with (resolve_kernel_shape n in_weights).
  apply bind_ext. intros kernel_shape. apply bind_ext. intros weights.
  by apply conv_with_locals_output_attrs.
Qed.

(** *** Successful runs of a transposed convolution *)

Lemma resolve_kernel_shape_inv n w ks :
  outcome (resolve_kernel_shape n (Input w)) = inr ks →
  ∀ ks', attr_kernel_shape (attrs n) = Some ks' → drop 2 (shape w) = Some <$> ks'.
Proof.
  unfold resolve_kernel_shape, list_dim_eqb. intros H ks' Hk. rewrite Hk in H.
  simpl in H. by destruct (bool_decide_reflect (drop 2 (shape w) = Some <$> ks')).
Qed.

Lemma conv_success_laid_out B n input_dict transpose x out :
  resolves input_dict n 0 x →
  outcome (conv B n input_dict transpose) = inr out →
  laid_out B x.
Proof.
  intros Hx H. unfold conv in H.
  rewrite (input_resolves _ _ _ _ 0 Hx eq_refl), bind_mret in H.
  apply outcome_bind_inv in H as (formats & Hf & _).
  unfold data_formats in Hf. simpl get_shape in Hf. unfold laid_out.
  by destruct (get_data_format B _).
Qed.

Lemma conv_success_kernel_shape B n input_dict transpose x w out :
  resolves input_dict n 0 x →
  resolves input_dict n 1 w →
  outcome (conv B n input_dict transpose) = inr out →
  ∀ ks, attr_kernel_shape (attrs n) = Some ks → drop 2 (shape w) = Some <$> ks.
Proof.
  intros Hx Hw H. unfold conv in H.
  rewrite (input_resolves _ _ _ _ 0 Hx eq_refl), bind_mret in H.
  apply outcome_bind_inv in H as ([storage compute] & _ & H).
  rewrite (input_resolves _ _ _ _ 1 Hw eq_refl), bind_mret in H.
  apply outcome_bind_inv in H as (ks & Hks & _).
  by apply (resolve_kernel_shape_inv _ _ _ Hks).
Qed.

Lemma conv_transposed_inv B n input_dict x w out :
  resolves input_dict n 0 x →
  resolves input_dict n 1 w →
  outcome (conv B n input_dict true) = inr out →
  let fr := frame_of B n x w in
  let group := default 1 (attr_group (attrs n)) in
  ∃ pad_mode x_last convolved,
    outcome (derive_pad_mode n true fr (Input x)) = inr (Input x, pad_mode)
    ∧ dilations fr = times [1] (spatial_size fr)
    ∧ outcome (conv_transpose_groups n fr pad_mode
                 (zip (input_groups B fr (Input x) group) (weight_groups fr group))
                 (compute_input B fr (Input x)) []) = inr (x_last, convolved)
    ∧ outcome (reassemble B n input_dict fr x_last convolved) = inr out.
Proof.
  intros Hx Hw H fr group.
  pose proof (conv_success_kernel_shape _ _ _ _ _ _ _ Hx Hw H) as Hk.
  pose proof (conv_success_laid_out _ _ _ _ _ _ Hx H) as Hl.
  rewrite (conv_resolved _ _ _ _ _ _ Hx Hl Hw Hk), bind_run_inr in H.
  simpl outcome in H. fold fr in H. unfold conv_with_locals in H.
  apply outcome_bind_inv in H as ([x' pad_mode] & Hd & H).
  assert (x' = Input x) as ->.
  { destruct (derive_pad_mode_cases n true fr (Input x))
      as [E | [[_ E] | [[pm E] | [? _]]]]; rewrite ?E in Hd; try done.
    simpl in Hd. congruence. }
  rewrite andb_false_r in H.
  apply outcome_bind_inv in H as ([x_last convolved] & Hg & H).
  rewrite grouped_path_partition in Hg.
  rewrite (outcome_bind_inr _ _ ()) in Hg by done.
  unfold list_Z_eqb in Hg.
  destruct (bool_decide_reflect (dilations fr = times [1] (spatial_size fr)))
    as [Hdil|]; [|done].
  by exists pad_mode, x_last, convolved.
Qed.

Lemma no_slice_reassemble B n input_dict fr x convolved :
  emits_only not_slice (reassemble B n input_dict fr x convolved).
Proof. unfold reassemble. emission. Qed.

Lemma emits_only_resolve_kernel_shape P n w :
  emits_only P (resolve_kernel_shape n w).
Proof. unfold resolve_kernel_shape. emission. Qed.

Lemma auto_pad_mode n fr x :
  attr_auto_pad (attrs n) = Some "VALID"
  ∨ attr_auto_pad (attrs n) = Some "SAME_UPPER" →
  ∃ pad_mode, derive_pad_mode n true fr x = Run [] (inr (x, pad_mode))
              ∧ String.eqb pad_mode "NOTSET" = false.
Proof.
  intros [H | H];
    [rewrite (proj1 (derive_pad_mode_auto n _ _) H)
    |rewrite (proj2 (derive_pad_mode_auto n _ _) H)]; by eexists.
Qed.

Lemma emits_only_run_bind {A B} P t (a : A) (f : A → M B) :
  forallb P t = true → emits_only P (f a) → emits_only P (Run t (inr a) ≫= f).
Proof. intros Ht Hf. unfold emits_only. simpl. by rewrite forallb_app, Ht. Qed.

Lemma no_slice_conv_with_locals B n input_dict fr x :
  attr_auto_pad (attrs n) = Some "VALID"
  ∨ attr_auto_pad (attrs n) = Some "SAME_UPPER" →
  emits_only not_slice (conv_with_locals B n input_dict true fr x).
Proof.
  intros Hpad. unfold conv_with_locals.
  destruct (auto_pad_mode n fr x Hpad) as (pad_mode & -> & Hmode).
  apply emits_only_run_bind; [done|]. rewrite andb_false_r.
  apply emits_only_bind; [|intros [x'' convolved]; apply no_slice_reassemble].
  rewrite grouped_path_partition. apply emits_only_run_bind.
  - by destruct (support_cuda fr).
  - destruct (negb _); [done|]. by apply no_slice_conv_transpose_groups.
Qed.

Lemma no_slice_conv_auto B n input_dict :
  attr_auto_pad (attrs n) = Some "VALID"
  ∨ attr_auto_pad (attrs n) = Some "SAME_UPPER" →
  emits_only not_slice (conv B n input_dict true).
Proof.
  intros Hpad. unfold conv.
  emission; [apply emits_only_resolve_kernel_shape
            | by apply no_slice_conv_with_locals].
Qed.

Lemma length_groups B fr x group :
  length (zip (input_groups B fr x group) (weight_groups fr group))
  = Z.to_nat group.
Proof.
  unfold input_groups, weight_groups.
  rewrite length_zip_with, !length_fmap, !length_seq. lia.
Qed.

(** C6: in a transposed convolution whose [auto_pad] is VALID the primitive
    of every group is given, at every spatial axis [i], the extent
    [strides[i] * (input_spatial[i] - 1) + kernel[i]], and with SAME_UPPER
    the extent [strides[i] * input_spatial[i]]; in both modes no slice is
    emitted and the attributes [output_shape] and [output_padding] have no
    influence on the run. *)
Theorem transposed_auto_pad_extents B n input_dict x w t out :
  resolves input_dict n 0 x →
  resolves input_dict n 1 w →
  length (shape w) = length (shape x) →
  attr_auto_pad (attrs n) = Some "VALID"
  ∨ attr_auto_pad (attrs n) = Some "SAME_UPPER" →
  conv B n input_dict true = Run t (inr out) →
  let fr := frame_of B n x w in
  let group := default 1 (attr_group (attrs n)) in
  (∃ x_last convolved core,
     out = [to_storage B fr core]
     ∧ concat_and_bias input_dict n fr x_last convolved core
     ∧ length convolved = Z.to_nat group
     ∧ (attr_auto_pad (attrs n) = Some "VALID" →
        Forall2 (λ p r, ∃ xs extents,
                   x_spatial_shape fr xs
                   ∧ transposed_call fr p.1 p.2 "VALID" extents r
                   ∧ Forall2 (valid_extent fr xs) (range (spatial_size fr)) extents)
          (zip (input_groups B fr (Input x) group) (weight_groups fr group))
          convolved)
     ∧ (attr_auto_pad (attrs n) = Some "SAME_UPPER" →
        Forall2 (λ p r, ∃ xs extents,
                   x_spatial_shape fr xs
                   ∧ transposed_call fr p.1 p.2 "SAME" extents r
                   ∧ Forall2 (same_extent fr xs) (range (spatial_size fr)) extents)
          (zip (input_groups B fr (Input x) group) (weight_groups fr group))
          convolved))
  ∧ forallb not_slice t = true
  ∧ (∀ output_shape output_padding,
       conv B (with_output_attrs output_shape output_padding n) input_dict true
       = conv B n input_dict true).
Proof.
  intros Hx Hw Hrank Hpad Hrun fr group. split; [|split].
  - assert (outcome (conv B n input_dict true) = inr out) as Hout
      by (by rewrite Hrun).
    destruct (conv_transposed_inv _ _ _ _ _ _ Hx Hw Hout)
      as (pad_mode & x_last & convolved & Hd & Hdil & Hloop & Hre).
    fold fr group in Hd, Hdil, Hloop, Hre.
    apply conv_transpose_groups_inv in Hloop as (_ & rs & -> & Hrs).
    apply reassemble_inv in Hre as (core & -> & Hcore). simpl in *.
    exists x_last, rs, core. split; [done|]. split; [done|]. split.
    { rewrite <- (Forall2_length _ _ _ Hrs). apply length_groups. }
    split; intros Hmode.
    + rewrite (proj1 (derive_pad_mode_auto n fr (Input x)) Hmode) in Hd.
      injection Hd as <-.
      eapply Forall2_impl; [exact Hrs|]. intros [xk wk] r Hr.
      apply conv_transpose_group_auto in Hr as (xs & extents & Hxs & Hext & Hcall);
        [|done].
      exists xs, extents. split; [done|]. split; [done|].
      apply auto_extents_valid, Forall2_elem_of_l in Hext.
      eapply Forall2_impl; [exact Hext|].
      intros i v [Hi (s & xi & k & Hs & Hxi & Hk & ->)].
      apply elem_of_range in Hi. exists s, xi, k. repeat split; try done.
      apply weights_shape_kernel; [|done].
      unfold fr, frame_of, spatial_size in Hi. rewrite Hrank. lia.
    + rewrite (proj2 (derive_pad_mode_auto n fr (Input x)) Hmode) in Hd.
      injection Hd as <-.
      eapply Forall2_impl; [exact Hrs|]. intros [xk wk] r Hr.
      apply conv_transpose_group_auto in Hr as (xs & extents & Hxs & Hext & Hcall);
        [|done].
      exists xs, extents. split; [done|]. split; [done|].
      by apply auto_extents_same in Hext.
  - pose proof (no_slice_conv_auto B n input_dict Hpad) as H.
    unfold emits_only in H. by rewrite Hrun in H.
  - intros os op. by apply conv_output_attrs.
Qed.

(** The scenario of the specification: input [1,4,5,5], weights [4,2,3,3],
    strides [2,2], VALID: the extents are (5-1)*2+3 = 11. *)
Example valid_transposed_run :
  conv accelerated valid_transposed tensors true
  = Run [OpTranspose; OpSplit; OpSplit; OpConvTranspose; OpConcat]
      (inr [Concat
              [ConvTranspose conv2d_transpose
                 (SplitOut (Input XT) 1 1 0)
                 (SplitOut (Transpose (Input WT) [2; 3; 1; 0]) 1 (-1) 0)
                 (ShapeList [Some 1; Some 2; Some 11; Some 11])
                 (StridesList [1; 1; 2; 2]) "VALID" "NCHW"]
              1]).
Proof. vm_compute. reflexivity. Qed.

Lemma transposed_auto_pad_extents_witness :
  let fr := frame_of accelerated valid_transposed XT WT in
  let group := default 1 (attr_group (attrs valid_transposed)) in
  let t := [OpTranspose; OpSplit; OpSplit; OpConvTranspose; OpConcat] in
  let out :=
    [Concat
       [ConvTranspose conv2d_transpose
          (SplitOut (Input XT) 1 1 0)
          (SplitOut (Transpose (Input WT) [2; 3; 1; 0]) 1 (-1) 0)
          (ShapeList [Some 1; Some 2; Some 11; Some 11])
          (StridesList [1; 1; 2; 2]) "VALID" "NCHW"]
       1] in
  (∃ x_last convolved core,
     out = [to_storage accelerated fr core]
     ∧ concat_and_bias tensors valid_transposed fr x_last convolved core
     ∧ length convolved = Z.to_nat group
     ∧ (attr_auto_pad (attrs valid_transposed) = Some "VALID" →
        Forall2 (λ p r, ∃ xs extents,
                   x_spatial_shape fr xs
                   ∧ transposed_call fr p.1 p.2 "VALID" extents r
                   ∧ Forall2 (valid_extent fr xs) (range (spatial_size fr)) extents)
          (zip (input_groups accelerated fr (Input XT) group) (weight_groups fr group))
          convolved)
     ∧ (attr_auto_pad (attrs valid_transposed) = Some "SAME_UPPER" →
        Forall2 (λ p r, ∃ xs extents,
                   x_spatial_shape fr xs
                   ∧ transposed_call fr p.1 p.2 "SAME" extents r
                   ∧ Forall2 (same_extent fr xs) (range (spatial_size fr)) extents)
          (zip (input_groups accelerated fr (Input XT) group) (weight_groups fr group))
          convolved))
  ∧ forallb not_slice t = true
  ∧ (∀ output_shape output_padding,
       conv accelerated (with_output_attrs output_shape output_padding
                           valid_transposed) tensors true
       = conv accelerated valid_transposed tensors true).
Proof.
  apply (transposed_auto_pad_extents accelerated valid_transposed tensors XT WT).
  - exists "XT". split; reflexivity.
  - exists "WT". split; reflexivity.
  - reflexivity.
  - left. reflexivity.
  - vm_compute. reflexivity.
Defined.

(** *** A group of a transposed convolution with explicit pads *)

Lemma process_dynamic_batch_size_inv x l i s :
  outcome (process_dynamic_batch_size x l i) = inr s →
  static_shape s = l
  ∧ match py_nth l i with
    | Some None => ∃ l', s = Stack l' ∧ py_nth l' i = Some (ShapeAt x i)
    | _ => s = ShapeList l
    end.
Proof.
  intros H. split; [by apply static_shape_process_dynamic_batch_size in H|].
  unfold process_dynamic_batch_size, handle_dynamic_batch_size, getitem, setitem in H.
  destruct (py_nth l i) as [[z|]|] eqn:E; [by injection H as <- | | done].
  rewrite bind_mret, length_fmap in H. unfold py_nth in E |- *.
  destruct (_ && _) eqn:Hin; [|done].
  injection H as <-. eexists. split; [done|].
  rewrite length_insert, length_fmap, Hin.
  apply list_lookup_insert_eq. rewrite length_fmap.
  by apply lookup_lt_Some in E.
Qed.

Lemma remove_pads_inv fr x conv_rs r :
  outcome (remove_pads fr x conv_rs) = inr r →
  ∃ size, r = Slice conv_rs (crop_begin fr) size ∧ crop_sizes fr x conv_rs size.
Proof.
  unfold remove_pads. intros H.
  apply outcome_bind_inv in H as (sizes & Hsizes & H).
  apply outcome_bind_inv in H as (size & Hsize & H).
  injection H as <-. exists size. split; [done|].
  apply process_dynamic_batch_size_inv in Hsize as [Hstatic Hbatch].
  unfold crop_sizes. rewrite Hstatic. split.
  - apply outcome_mapM_inv in Hsizes.
    eapply Forall2_impl; [exact Hsizes|]. intros [d s] v Hv.
    unfold crop_size. simpl in *. destruct (batch_or_channel d).
    + by injection Hv as <-.
    + invert_run Hv. subst. by eexists _, _, _.
  - done.
Qed.

Lemma conv_transpose_group_notset n fr x weight r :
  outcome (conv_transpose_group n fr "NOTSET" x weight) = inr r →
  ∃ xs extents conv_rs size,
    x_spatial_shape fr xs
    ∧ outcome (notset_extents n fr xs) = inr extents
    ∧ transposed_call fr x weight "VALID" extents conv_rs
    ∧ r = Slice (output_padded n fr conv_rs) (crop_begin fr) size
    ∧ crop_sizes fr x (output_padded n fr conv_rs) size.
Proof.
  intros H. unfold conv_transpose_group in H. simpl String.eqb in H. cbv iota in H.
  apply outcome_bind_inv in H as (xs & Hxs & H).
  apply outcome_mapM_inv in Hxs.
  apply outcome_bind_inv in H as (batch & Hbatch & H).
  apply outcome_getitem_inv in Hbatch.
  apply outcome_bind_inv in H as (extents & Hext & H).
  apply outcome_bind_inv in H as (c & Hc & H).
  apply outcome_getitem_inv in Hc.
  apply outcome_bind_inv in H as (s & Hs & H).
  apply static_shape_process_dynamic_batch_size in Hs.
  apply outcome_bind_inv in H as ([f st] & Hf & H).
  apply outcome_bind_inv in H as (conv_rs & Hconv & H).
  injection Hconv as <-.
  apply outcome_bind_inv in H as (padded & Hpadded & H).
  assert (padded = output_padded n fr
            (ConvTranspose f x weight s st "VALID" (compute_format fr))) as ->.
  { unfold output_padded.
    destruct (attr_output_padding (attrs n)), (attr_output_shape (attrs n));
      by injection Hpadded as <-. }
  apply remove_pads_inv in H as (size & -> & Hsize).
  eexists xs, extents, _, size. split; [|split; [done|split; [|done]]].
  - eapply Forall2_impl; [exact Hxs|]. intros d v Hv.
    by apply outcome_getitem_inv in Hv.
  - by eexists f, s, st, batch, c.
Qed.

Lemma derive_pad_mode_notset n fr x :
  attr_auto_pad (attrs n) = None ∨ attr_auto_pad (attrs n) = Some "NOTSET" →
  derive_pad_mode n true fr x = Run [] (inr (x, "NOTSET")).
Proof. unfold derive_pad_mode. by intros [-> | ->]. Qed.

(** Lines 150-155: without [output_shape], the extent at the spatial axis
    [i] is [strides[i] * (input_spatial[i] - 1) + (kernel[i] - 1) *
    dilations[i] + 1]. *)
Lemma notset_extents_inferred n fr xs extents :
  attr_output_shape (attrs n) = None →
  outcome (notset_extents n fr xs) = inr extents →
  Forall2 (λ i v, ∃ s xi k d,
             py_nth (strides fr) i = Some s ∧ py_nth xs i = Some (Some xi)
             ∧ py_nth (kernel_shape fr) i = Some (Some k)
             ∧ py_nth (dilations fr) i = Some d
             ∧ v = Some (s * (xi - 1) + (k - 1) * d + 1))
    (range (spatial_size fr)) extents.
Proof.
  unfold notset_extents. intros -> H. apply outcome_mapM_inv in H.
  eapply Forall2_impl; [exact H|]. intros i v Hv. simpl in Hv.
  invert_run Hv. subst.
  match goal with
  | H1 : py_nth (strides fr) i = Some ?s, H2 : py_nth (strides fr) i = Some ?s' |- _ =>
      assert (s' = s) as -> by congruence
  end.
  eexists _, _, _, _. repeat split; try done. f_equal. lia.
Qed.

(** Lines 156-160: with [output_shape], the extents are those of its last
    two entries, each with the [pads] of its position added. *)
Lemma notset_extents_given n fr xs output_shape extents :
  attr_output_shape (attrs n) = Some output_shape →
  outcome (notset_extents n fr xs) = inr extents →
  Forall2 (λ '(i, s) v, ∃ p q,
             py_nth (pads fr) i = Some p
             ∧ py_nth (pads fr) (spatial_size fr + i) = Some q
             ∧ v = Some (s + p + q))
    (enumerate (last_two output_shape)) extents.
Proof.
  unfold notset_extents. intros -> H. apply outcome_mapM_inv in H.
  eapply Forall2_impl; [exact H|]. intros [i s] v Hv. simpl in Hv.
  invert_run Hv. subst. by eexists _, _.
Qed.

(** *** The axes of the slice *)

Lemma Forall2_py_insert {A B} (P : A → B → Prop) i a b l k :
  P a b → Forall2 P l k → Forall2 P (py_insert i a l) (py_insert i b k).
Proof.
  intros Hab H. unfold py_insert. rewrite <- (Forall2_length _ _ _ H).
  apply Forall2_app; [by apply Forall2_take|].
  constructor; [done | by apply Forall2_drop].
Qed.

Lemma find_from_lookup s c i (k : nat) :
  NoDup (chars s) → chars s !! k = Some c → find_from s c i = i + Z.of_nat k.
Proof.
  revert i k. induction s as [|a s IH]; intros i k Hnd Hk; [done|].
  simpl in *. apply NoDup_cons in Hnd as [Hnotin Hnd].
  destruct k as [|k]; simpl in Hk.
  - injection Hk as ->. rewrite Ascii.eqb_refl. lia.
  - destruct (Ascii.eqb_spec a c) as [->|_].
    + exfalso. apply Hnotin. by eapply list_elem_of_lookup_2.
    + rewrite (IH (i + 1) k Hnd Hk). lia.
Qed.

Lemma crop_begin_aligned fr :
  layout_well_formed fr →
  spatial_size fr ≤ Z.of_nat (length (pads fr)) →
  Forall2 (crop_start fr) (chars (compute_format fr)) (crop_begin fr).
Proof.
  intros (Hfmt & Hnd & Hsp & Hlen) Hpads. unfold crop_begin. rewrite Hfmt.
  apply Forall2_py_insert; [done|]. constructor; [done|].
  unfold py_prefix. destruct (Z.ltb_spec (spatial_size fr) 0) as [?|_]; [lia|].
  apply Forall2_same_length_lookup_2.
  { rewrite length_take. lia. }
  intros i d b Hd Hb. unfold crop_start.
  rewrite Forall_forall in Hsp. rewrite (Hsp d) by by eapply list_elem_of_lookup_2.
  unfold find. rewrite (find_from_lookup _ _ 0 i Hnd Hd).
  rewrite py_nth_nonneg by lia. apply lookup_take_Some in Hb as [Hb _].
  by replace (Z.to_nat (0 + Z.of_nat i)) with i by lia.
Qed.

(** C7, as the code has it: in a transposed convolution with explicit pads
    ([auto_pad] absent or NOTSET), the result of the primitive of every
    group is padded at the end of each spatial axis by [output_padding] when
    that attribute is present and no [output_shape] is given; then a slice
    starts at [pads[i]] and keeps the extent less [pads[i]] and
    [pads[spatial_size + i]] at each spatial axis; when the batch extent is
    unknown statically, that of the slice is the runtime one of the input
    slice of the group. *)
Theorem explicit_pads_cropped B n input_dict x w t out :
  resolves input_dict n 0 x →
  resolves input_dict n 1 w →
  attr_auto_pad (attrs n) = None ∨ attr_auto_pad (attrs n) = Some "NOTSET" →
  conv B n input_dict true = Run t (inr out) →
  let fr := frame_of B n x w in
  let group := default 1 (attr_group (attrs n)) in
  ∃ x_last convolved core,
    out = [to_storage B fr core]
    ∧ concat_and_bias input_dict n fr x_last convolved core
    ∧ Forall2 (λ p r, ∃ extents conv_rs size,
                 transposed_call fr p.1 p.2 "VALID" extents conv_rs
                 ∧ r = Slice (output_padded n fr conv_rs) (crop_begin fr) size
                 ∧ crop_sizes fr p.1 (output_padded n fr conv_rs) size)
        (zip (input_groups B fr (Input x) group) (weight_groups fr group))
        convolved
    ∧ (layout_well_formed fr →
       spatial_size fr ≤ Z.of_nat (length (pads fr)) →
       Forall2 (crop_start fr) (chars (compute_format fr)) (crop_begin fr)).
Proof.
  intros Hx Hw Hpad Hrun fr group.
  assert (outcome (conv B n input_dict true) = inr out) as Hout
    by (by rewrite Hrun).
  destruct (conv_transposed_inv _ _ _ _ _ _ Hx Hw Hout)
    as (pad_mode & x_last & convolved & Hd & Hdil & Hloop & Hre).
  fold fr group in Hd, Hdil, Hloop, Hre.
  rewrite (derive_pad_mode_notset n fr (Input x) Hpad) in Hd. injection Hd as <-.
  apply conv_transpose_groups_inv in Hloop as (_ & rs & -> & Hrs).
  apply reassemble_inv in Hre as (core & -> & Hcore). simpl in *.
  exists x_last, rs, core. split; [done|]. split; [done|].
  split; [|apply crop_begin_aligned].
  eapply Forall2_impl; [exact Hrs|]. intros [xk wk] r Hr.
  apply conv_transpose_group_notset in Hr
    as (xs & extents & conv_rs & size & _ & _ & Hcall & -> & Hsize).
  by exists extents, conv_rs, size.
Qed.

(** The compute formats of the two backends are well formed. *)
Example layout_well_formed_sample :
  layout_well_formed (frame_of accelerated padded_transposed XTdyn WT)
  ∧ layout_well_formed (frame_of fallback padded_transposed XTdyn WT).
Proof.
  split; (split; [reflexivity|]; split; [|split; [|reflexivity]]).
  - apply (bool_decide_unpack _). vm_compute. exact I.
  - by repeat constructor.
  - apply (bool_decide_unpack _). vm_compute. exact I.
  - by repeat constructor.
Qed.

Lemma explicit_pads_cropped_witness :
  let fr := frame_of accelerated padded_transposed XTdyn WT in
  let group := default 1 (attr_group (attrs padded_transposed)) in
  let x0 := SplitOut (Input XTdyn) 1 1 0 in
  let out :=
    [Concat
       [Slice
          (Pad
             (ConvTranspose conv2d_transpose x0
                (SplitOut (Transpose (Input WT) [2; 3; 1; 0]) 1 (-1) 0)
                (Stack [ShapeAt x0 0; Lit (Some 2); Lit (Some 11); Lit (Some 11)])
                (StridesList [1; 1; 2; 2]) "VALID" "NCHW")
             [[0; 0]; [0; 0]; [0; 1]; [0; 1]])
          [0; 0; 1; 1]
          (Stack [ShapeAt x0 0; Lit (Some 2); Lit (Some 10); Lit (Some 10)])]
       1] in
  ∃ x_last convolved core,
    out = [to_storage accelerated fr core]
    ∧ concat_and_bias tensors padded_transposed fr x_last convolved core
    ∧ Forall2 (λ p r, ∃ extents conv_rs size,
                 transposed_call fr p.1 p.2 "VALID" extents conv_rs
                 ∧ r = Slice (output_padded padded_transposed fr conv_rs)
                         (crop_begin fr) size
                 ∧ crop_sizes fr p.1 (output_padded padded_transposed fr conv_rs)
                     size)
        (zip (input_groups accelerated fr (Input XTdyn) group)
           (weight_groups fr group))
        convolved
    ∧ (layout_well_formed fr →
       spatial_size fr ≤ Z.of_nat (length (pads fr)) →
       Forall2 (crop_start fr) (chars (compute_format fr)) (crop_begin fr)).
Proof.
  apply (explicit_pads_cropped accelerated padded_transposed tensors XTdyn WT
           [OpTranspose; OpSplit; OpSplit; OpShape; OpStridedSlice; OpPack;
            OpConvTranspose; OpPad; OpShape; OpStridedSlice; OpPack; OpSlice;
            OpConcat]).
  - exists "XTdyn". split; reflexivity.
  - exists "WT". split; reflexivity.
  - left. reflexivity.
  - vm_compute. reflexivity.
Defined.

(** C7 as stated fails: with an [output_shape] the [output_padding] that is
    present is not applied: no pad is emitted, and the slice is taken from
    the result of the primitive. *)
Lemma output_padding_ignored_with_output_shape :
  attr_output_padding (attrs shaped_transposed) = Some [1; 1]
  ∧ conv accelerated shaped_transposed tensors true
    = (let x0 := SplitOut (Input XTdyn) 1 1 0 in
      Run [OpTranspose; OpSplit; OpSplit; OpShape; OpStridedSlice; OpPack;
           OpConvTranspose; OpShape; OpStridedSlice; OpPack; OpSlice; OpConcat]
        (inr [Concat
                [Slice
                   (ConvTranspose conv2d_transpose x0
                      (SplitOut (Transpose (Input WT) [2; 3; 1; 0]) 1 (-1) 0)
                      (Stack [ShapeAt x0 0; Lit (Some 2); Lit (Some 12);
                              Lit (Some 12)])
                      (StridesList [1; 1; 2; 2]) "VALID" "NCHW")
                   [0; 0; 1; 1]
                   (Stack [ShapeAt x0 0; Lit (Some 2); Lit (Some 10);
                           Lit (Some 10)])]
                1]))
  ∧ OpPad ∉ emitted (conv accelerated shaped_transposed tensors true).
Proof.
  split; [reflexivity|]. split; [vm_compute; reflexivity|].
  vm_compute. intros H. by repeat (apply elem_of_cons in H as [H|H]; [done|]);
    apply elem_of_nil in H.
Qed.

(** ** Spatial rank of a transposed convolution *)

Lemma derive_pad_mode_transposed n fr x :
  auto_pad_known n = true →
  derive_pad_mode n true fr x = Run [] (inr (x, transposed_pad_mode n)).
Proof.
  unfold auto_pad_known, derive_pad_mode, transposed_pad_mode, auto_pad_is.
  destruct (attr_auto_pad (attrs n)) as [a|]; [|done].
  destruct (String.eqb_spec a "NOTSET") as [->|_]; [done|].
  destruct (String.eqb_spec a "SAME_UPPER") as [->|_]; [done|].
  by destruct (String.eqb_spec a "VALID") as [->|_].
Qed.

Lemma bind_then_raise {A B} (m : M A) (e : exception) :
  (m ≫= λ _, raise (A := B) e)
  = Run (emitted m) (inl (match outcome m with inl e' => e' | inr _ => e end)).
Proof.
  unfold mbind, M_bind. destruct m as [t [e'|a]]; simpl; [done|].
  by rewrite app_nil_r.
Qed.

(** At a rank without a primitive, a group is translated up to the shape
    argument. *)
Lemma conv_transpose_group_unsupported n fr pad_mode x weight :
  supported_rank fr = false →
  conv_transpose_group n fr pad_mode x weight
  = Run (emitted (conv_output_shape n fr pad_mode x))
      (inl (rank_check_failure (conv_output_shape n fr pad_mode x))).
Proof.
  intros Hrank. unfold rank_check_failure.
  rewrite <- (bind_then_raise (B := tensor)).
  unfold conv_transpose_group, conv_output_shape.
  rewrite (get_conv_func_unsupported _ Hrank).
  rewrite bind_assoc. apply bind_ext. intros xs.
  rewrite bind_assoc. apply bind_ext. intros batch.
  destruct (String.eqb pad_mode "NOTSET").
  - rewrite bind_assoc. apply bind_ext. intros extents.
    rewrite bind_assoc. apply bind_ext. intros c. done.
  - rewrite bind_assoc. apply bind_ext. intros extents.
    rewrite bind_assoc. apply bind_ext. intros c. done.
Qed.

(** C8, as the code has it: a transposed convolution whose spatial rank is
    not 1, 2 or 3, on an input whose rank has layouts and that passes the
    earlier checks (kernel shape, auto_pad absent or one of NOTSET,
    SAME_UPPER and VALID, dilations all 1), with a positive group count,
    fails while its first group is translated, after the transposition of
    the weights and the partition.  It fails with the error of the
    computation of the shape argument when that computation fails (a
    subscript out of range, an unknown extent, or the unbound
    [handle_dynamic_batch_size] of line 244), and with NotImplementedError,
    raised by the selection of the primitive, when it returns.  For the
    spatial ranks 1, 2 and 3 the primitives selected are conv1d_transpose,
    conv2d_transpose and conv3d_transpose. *)
Theorem unsupported_rank_not_implemented B n input_dict x w :
  resolves input_dict n 0 x →
  laid_out B x →
  resolves input_dict n 1 w →
  (∀ ks, attr_kernel_shape (attrs n) = Some ks → drop 2 (shape w) = Some <$> ks) →
  auto_pad_known n = true →
  (∀ d, attr_dilations (attrs n) = Some d →
        d = times [1] (Z.of_nat (length (shape x)) - 2)) →
  1 ≤ default 1 (attr_group (attrs n)) →
  let rank := Z.of_nat (length (shape x)) - 2 in
  let fr := frame_of B n x w in
  let x0 := SplitOut (compute_input B fr (Input x))
              (default 1 (attr_group (attrs n))) (channel_axis fr) 0 in
  let shape_argument := conv_output_shape n fr (transposed_pad_mode n) x0 in
  (rank ≠ 1 → rank ≠ 2 → rank ≠ 3 →
   conv B n input_dict true
   = Run (OpTranspose :: partition_ops (support_cuda fr) ++ emitted shape_argument)
       (inl (rank_check_failure shape_argument)))
  ∧ (∀ fr s, spatial_size fr = 1 → py_nth (strides fr) 0 = Some s →
       get_conv_func fr = Run [] (inr (conv1d_transpose, StridesInt s)))
  ∧ (∀ fr, spatial_size fr = 2 →
       get_conv_func fr
       = Run [] (inr (conv2d_transpose,
                      StridesList (py_insert (compute_c_idx fr) 1 (1 :: strides fr)))))
  ∧ (∀ fr, spatial_size fr = 3 →
       get_conv_func fr
       = Run [] (inr (conv3d_transpose,
                      StridesList (py_insert (compute_c_idx fr) 1 (1 :: strides fr))))).
Proof.
  intros Hx Hl Hw Hk Hpad Hdil Hg rank fr x0 shape_argument. repeat split.
  - intros H1 H2 H3. rewrite (conv_resolved _ _ _ _ _ _ Hx Hl Hw Hk), bind_run_inr.
    fold fr. unfold conv_with_locals.
    rewrite (derive_pad_mode_transposed n fr (Input x) Hpad).
    rewrite bind_run_inr, andb_false_r, grouped_path_partition, bind_run_inr.
    assert (dilations fr = times [1] (spatial_size fr)) as Hd.
    { unfold fr, frame_of. simpl. destruct (attr_dilations (attrs n)) as [d|]; [|done].
      by apply Hdil. }
    unfold list_Z_eqb. rewrite bool_decide_eq_true_2 by done. cbn [negb].
    unfold input_groups, weight_groups.
    destruct (Z.to_nat (default 1 (attr_group (attrs n)))) as [|k] eqn:E; [lia|].
    cbn [seq fmap list_fmap zip_with conv_transpose_groups].
    rewrite conv_transpose_group_unsupported.
    + fold x0 shape_argument. by rewrite bind_run_inl.
    + unfold supported_rank, fr. simpl. fold rank.
      destruct (Z.eqb_spec rank 1); [done|]. destruct (Z.eqb_spec rank 2); [done|].
      by destruct (Z.eqb_spec rank 3).
  - intros fr' s H1 Hs. unfold get_conv_func, getitem. by rewrite H1, Hs.
  - intros fr' H2. unfold get_conv_func. by rewrite H2.
  - intros fr' H3. unfold get_conv_func. by rewrite H3.
Qed.

Lemma unsupported_rank_not_implemented_witness :
  conv accelerated (Node ["X2"; "W2"] no_attrs) tensors true
  = Run [OpTranspose; OpSplit; OpSplit] (inl NotImplementedError).
Proof.
  destruct (unsupported_rank_not_implemented accelerated
              (Node ["X2"; "W2"] no_attrs) tensors X2 W2) as [H _].
  - exists "X2". split; reflexivity.
  - by eexists.
  - exists "W2". split; reflexivity.
  - intros ks [=].
  - reflexivity.
  - intros d [=].
  - simpl. lia.
  - apply H; simpl; lia.
Defined.

(** C8 as stated fails.  On an input of rank 2 (no spatial axis) with
    [auto_pad] SAME_LOWER the transposed convolution is rejected as
    unsupported (line 89) before the rank is looked at; with [auto_pad]
    VALID and an unknown batch size it fails at line 244, where
    [handle_dynamic_batch_size] is unbound, before the primitive is
    selected. *)
Lemma unsupported_rank_other_failures :
  conv accelerated
    (Node ["X2"; "W2"]
       (Attributes None None None None None (Some "SAME_LOWER") None None))
    tensors true = Run [OpTranspose] (inl OpUnsupported)
  ∧ conv accelerated
      (Node ["X2dyn"; "W2"]
         (Attributes None None None None None (Some "VALID") None None))
      tensors true = Run [OpTranspose; OpSplit; OpSplit] (inl UnboundLocalError).
Proof. split; vm_compute; reflexivity. Qed.

(** At a rank above 5 the rank check is not reached: the layout utility has
    no label for a fourth spatial axis, and line 34 raises IndexError. *)
Example rank_6_no_layout :
  conv accelerated (Node ["X6"; "W6"] no_attrs) tensors true
  = Run [] (inl IndexError).
Proof. vm_compute. reflexivity. Qed.

(** ** The reference operand of the bias *)

Lemma conv_inv B n input_dict transpose x w out :
  resolves input_dict n 0 x →
  resolves input_dict n 1 w →
  outcome (conv B n input_dict transpose) = inr out →
  let fr := frame_of B n x w in
  let group := default 1 (attr_group (attrs n)) in
  ∃ x' pad_mode,
    derived_input fr x x'
    ∧ outcome (if (group =? 1) && negb transpose
               then fast_path B n input_dict fr x' pad_mode
               else '(x, convolved) ← grouped_path B n transpose fr x' pad_mode group;
                    reassemble B n input_dict fr x convolved) = inr out.
Proof.
  intros Hx Hw H fr group.
  pose proof (conv_success_kernel_shape _ _ _ _ _ _ _ Hx Hw H) as Hk.
  pose proof (conv_success_laid_out _ _ _ _ _ _ Hx H) as Hl.
  rewrite (conv_resolved _ _ _ _ _ _ Hx Hl Hw Hk) in H.
  rewrite (outcome_bind_inr _ _ ()) in H by done.
  fold fr in H. unfold conv_with_locals in H.
  apply outcome_bind_inv in H as ([x' pad_mode] & Hd & H).
  exists x', pad_mode. split; [|done]. unfold derived_input.
  destruct (derive_pad_mode_cases n transpose fr (Input x))
    as [E | [[_ E] | [[pm E] | [_ [pm E]]]]]; rewrite E in Hd; try done;
    simpl in Hd; injection Hd as <- _; auto.
Qed.

Lemma fast_path_bias_inv B n input_dict fr x' pad_mode out :
  length (inputs n) ≠ 2%nat →
  outcome (fast_path B n input_dict fr x' pad_mode) = inr out →
  ∃ ref pad_mode' bias,
    outcome (input input_dict n 2) = inr bias
    ∧ fast_path_input B fr x' ref
    ∧ out = [to_storage B fr
               (Add (Convolution ref (weights fr) pad_mode' (strides fr)
                       (dilations fr) (compute_format fr))
                    (ExplicitBroadcast ref bias (compute_c_idx fr)))].
Proof.
  intros Hlen H. unfold fast_path in H.
  apply outcome_bind_inv in H as ([ref pad_mode'] & Hpad & H).
  apply outcome_bind_inv in H as (output & Hconv & H). injection Hconv as <-.
  apply outcome_bind_inv in H as (output & H & <-%outcome_mret_inv).
  destruct (Nat.eqb_spec (length (inputs n)) 2) as [?|_]; [done|].
  apply outcome_bind_inv in H as (bias & Hbias & H).
  exists ref, pad_mode', bias. split; [done|]. split.
  - unfold fast_path_input. destruct (same_lower_strided n fr).
    + destruct (support_cuda fr) eqn:Hc; injection Hpad as <- _; auto.
    + injection Hpad as <- _. auto.
  - unfold to_storage. by destruct (support_cuda fr); injection H as <-.
Qed.

Lemma fst_zip_groups B fr x group :
  (zip (input_groups B fr x group) (weight_groups fr group)).*1
  = input_groups B fr x group.
Proof.
  apply fst_zip. unfold input_groups, weight_groups.
  by rewrite !length_fmap, !length_seq.
Qed.

(** After the loop of a transposed convolution with at least one group,
    [x] is the input slice of the last group. *)
Lemma last_input_group B fr x group :
  1 ≤ group →
  last (compute_input B fr x :: input_groups B fr x group)
  = Some (SplitOut (compute_input B fr x) group (channel_axis fr)
            (Z.to_nat group - 1)).
Proof.
  intros Hg. unfold input_groups.
  destruct (Z.to_nat group) as [|k] eqn:Hk; [lia|].
  rewrite seq_S, fmap_app. simpl.
  rewrite app_comm_cons, last_snoc. do 2 f_equal. lia.
Qed.

(** C10, as the code has it: when the node has a bias, the bias is
    broadcast toward the channel axis with the tensor bound to [x] as the
    reference, and added before the return to the storage layout.  In the
    single-convolution path the reference is the input of the convolution
    (the input, padded or not); in the grouped path the bias is added to the
    concatenation of the groups, and the reference is the input slice of the
    last group when the convolution is transposed, and the whole input in
    the compute layout when it is not. *)
Theorem bias_reference B n input_dict transpose x w t out :
  resolves input_dict n 0 x →
  resolves input_dict n 1 w →
  length (inputs n) ≠ 2%nat →
  conv B n input_dict transpose = Run t (inr out) →
  let fr := frame_of B n x w in
  let group := default 1 (attr_group (attrs n)) in
  ∃ x' ref core bias,
    derived_input fr x x'
    ∧ outcome (input input_dict n 2) = inr bias
    ∧ out = [to_storage B fr (Add core (ExplicitBroadcast ref bias (compute_c_idx fr)))]
    ∧ if (group =? 1) && negb transpose then
        fast_path_input B fr x' ref
        ∧ ∃ pad_mode, core = Convolution ref (weights fr) pad_mode (strides fr)
                               (dilations fr) (compute_format fr)
      else
        (∃ convolved, core = Concat convolved (channel_axis fr))
        ∧ if transpose
          then last (compute_input B fr x' :: input_groups B fr x' group) = Some ref
          else ref = compute_input B fr x'.
Proof.
  intros Hx Hw Hlen Hrun fr group.
  assert (outcome (conv B n input_dict transpose) = inr out) as Hout
    by (by rewrite Hrun).
  destruct (conv_inv _ _ _ _ _ _ _ Hx Hw Hout) as (x' & pad_mode & Hx' & H).
  fold fr group in H. exists x'.
  destruct ((group =? 1) && negb transpose).
  - apply fast_path_bias_inv in H as (ref & pm & bias & Hb & Href & ->); [|done].
    eexists ref, _, bias. repeat split; eauto.
  - apply outcome_bind_inv in H as ([x_last convolved] & Hg & H).
    apply reassemble_inv in H as (core & -> & [[? _] | (_ & bias & Hb & ->)]);
      [done|].
    eexists x_last, _, bias. split; [done|]. split; [done|]. split; [done|].
    split; [by eexists|].
    rewrite grouped_path_partition in Hg.
    rewrite (outcome_bind_inr _ _ ()) in Hg by done.
    destruct transpose.
    + destruct (negb _); [done|].
      apply conv_transpose_groups_inv in Hg as [Hlast _].
      by rewrite fst_zip_groups in Hlast.
    + apply outcome_bind_inv in Hg as (c & _ & Hg). by injection Hg as <- _.
Qed.

Lemma bias_reference_witness :
  let fr := frame_of accelerated biased_transposed XT WT in
  let group := default 1 (attr_group (attrs biased_transposed)) in
  let w' := Transpose (Input WT) [2; 3; 1; 0] in
  let out :=
    [Add
       (Concat
          [ConvTranspose conv2d_transpose
             (SplitOut (Input XT) 2 1 0) (SplitOut w' 2 (-1) 0)
             (ShapeList [Some 1; Some 2; Some 7; Some 7])
             (StridesList [1; 1; 1; 1]) "VALID" "NCHW";
           ConvTranspose conv2d_transpose
             (SplitOut (Input XT) 2 1 1) (SplitOut w' 2 (-1) 1)
             (ShapeList [Some 1; Some 2; Some 7; Some 7])
             (StridesList [1; 1; 1; 1]) "VALID" "NCHW"]
          1)
       (ExplicitBroadcast (SplitOut (Input XT) 2 1 1) (Input Bias) 1)] in
  ∃ x' ref core bias,
    derived_input fr XT x'
    ∧ outcome (input tensors biased_transposed 2) = inr bias
    ∧ out = [to_storage accelerated fr
               (Add core (ExplicitBroadcast ref bias (compute_c_idx fr)))]
    ∧ if (group =? 1) && negb true then
        fast_path_input accelerated fr x' ref
        ∧ ∃ pad_mode, core = Convolution ref (weights fr) pad_mode (strides fr)
                               (dilations fr) (compute_format fr)
      else
        (∃ convolved, core = Concat convolved (channel_axis fr))
        ∧ if true
          then last (compute_input accelerated fr x'
                     :: input_groups accelerated fr x' group) = Some ref
          else ref = compute_input accelerated fr x'.
Proof.
  apply (bias_reference accelerated biased_transposed tensors true XT WT
           [OpTranspose; OpSplit; OpSplit; OpConvTranspose; OpConvTranspose;
            OpBroadcast; OpConcat; OpAdd]).
  - exists "XT". split; reflexivity.
  - exists "WT". split; reflexivity.
  - simpl. lia.
  - vm_compute. reflexivity.
Defined.

(** C10 as stated fails: in the grouped path of a convolution that is not
    transposed the reference operand is the whole input, not the input slice
    of the last group. *)
Lemma grouped_bias_reference_is_whole_input :
  let w' := Transpose (Input WT) [2; 3; 1; 0] in
  conv accelerated biased_grouped tensors false
  = Run [OpTranspose; OpSplit; OpSplit; OpConvolution; OpConvolution;
         OpBroadcast; OpConcat; OpAdd]
      (inr [Add
              (Concat
                 [Convolution (SplitOut (Input X4) 2 1 0) (SplitOut w' 2 (-1) 0)
                    "VALID" [1; 1] [1; 1] "NCHW";
                  Convolution (SplitOut (Input X4) 2 1 1) (SplitOut w' 2 (-1) 1)
                    "VALID" [1; 1] [1; 1] "NCHW"]
                 1)
              (ExplicitBroadcast (Input X4) (Input Bias) 1)])
  ∧ Input X4 ≠ SplitOut (Input X4) 2 1 1.
Proof. split; [vm_compute; reflexivity | discriminate]. Qed.

(** ** Dynamic batch size with an automatic padding *)

(** With [auto_pad] VALID and an input whose batch size is unknown, the call
    of line 244 finds [handle_dynamic_batch_size] unbound: a transposed
    convolution with an automatic padding is translated only when the batch
    size of its input is known. *)
Example valid_transposed_dynamic_batch :
  conv accelerated
    (Node ["XTdyn"; "WT"]
       (Attributes None (Some [2; 2]) None None None (Some "VALID") None None))
    tensors true
  = Run [OpTranspose; OpSplit; OpSplit] (inl UnboundLocalError).
Proof. vm_compute. reflexivity. Qed.

(** * Further properties *)

(** ** Inputs that are not bound *)

Lemma input_cases (input_dict : gmap string handle) n (i : nat) :
  input input_dict n (Z.of_nat i) = raise IndexError
  ∨ input input_dict n (Z.of_nat i) = raise KeyError
  ∨ ∃ h, resolves input_dict n i h.
Proof.
  unfold input, getitem, resolves. rewrite py_nth_nonneg by lia. rewrite Nat2Z.id.
  destruct (inputs n !! i) as [key|]; [|by left].
  rewrite bind_mret. destruct (input_dict !! key) as [h|] eqn:E; [|right; by left].
  right. right. by exists h, key.
Qed.

(** X1: when the data input or the weight input of the node is not bound
    (the node has too few inputs, or the name is not a key of the
    dictionary), the call fails with IndexError or KeyError and has emitted
    nothing. *)
Theorem unbound_input_fails B n input_dict transpose :
  (¬ ∃ x, resolves input_dict n 0 x) ∨ (¬ ∃ w, resolves input_dict n 1 w) →
  ∃ e, conv B n input_dict transpose = Run [] (inl e)
       ∧ (e = IndexError ∨ e = KeyError).
Proof.
  intros H. unfold conv.
  destruct (input_cases input_dict n 0) as [E | [E | [x Hx]]].
  - change (Z.of_nat 0) with 0 in E. rewrite E. exists IndexError. by split; [|left].
  - change (Z.of_nat 0) with 0 in E. rewrite E. exists KeyError. by split; [|right].
  - rewrite (input_resolves _ _ _ _ 0 Hx eq_refl), bind_mret.
    destruct H as [H | H]; [destruct H; by exists x|].
    unfold data_formats.
    destruct (get_data_format B _) as [[storage compute]|];
      [rewrite bind_mret | exists IndexError; by split; [|left]].
    destruct (input_cases input_dict n 1) as [E | [E | [w Hw]]].
    + change (Z.of_nat 1) with 1 in E. rewrite E. exists IndexError.
      by split; [|left].
    + change (Z.of_nat 1) with 1 in E. rewrite E. exists KeyError.
      by split; [|right].
    + destruct H. by exists w.
Qed.

Lemma unbound_input_fails_witness :
  ∃ e, conv accelerated (Node ["X"] no_attrs) tensors false = Run [] (inl e)
       ∧ (e = IndexError ∨ e = KeyError).
Proof.
  apply (unbound_input_fails accelerated (Node ["X"] no_attrs) tensors false).
  right. intros (w & key & Hkey & _). discriminate.
Defined.

(** ** Rejected attributes *)

(** X2: on an input whose rank has layouts, an [auto_pad] attribute that is
    none of NOTSET, SAME_UPPER, VALID and SAME_LOWER makes the call fail with
    ValueError, transposed or not, once the weights have been transposed and
    nothing else. *)
Theorem invalid_auto_pad_rejected B n input_dict transpose x w a :
  resolves input_dict n 0 x →
  laid_out B x →
  resolves input_dict n 1 w →
  (∀ ks, attr_kernel_shape (attrs n) = Some ks → drop 2 (shape w) = Some <$> ks) →
  attr_auto_pad (attrs n) = Some a →
  auto_pad_invalid a →
  conv B n input_dict transpose = Run [OpTranspose] (inl ValueError).
Proof.
  intros Hx Hl Hw Hk Hpad (H1 & H2 & H3 & H4).
  rewrite (conv_resolved _ _ _ _ _ _ Hx Hl Hw Hk).
  unfold conv_with_locals, derive_pad_mode. rewrite Hpad.
  apply String.eqb_neq in H1, H2, H3, H4. by rewrite H1, H2, H3, H4.
Qed.

Lemma invalid_auto_pad_rejected_witness :
  conv fallback
    (Node ["X"; "W"]
       (Attributes None None None None None (Some "SAME") None None))
    tensors false = Run [OpTranspose] (inl ValueError).
Proof.
  apply (invalid_auto_pad_rejected fallback _ tensors false X W "SAME").
  - exists "X". split; reflexivity.
  - by eexists.
  - exists "W". split; reflexivity.
  - intros ks [=].
  - reflexivity.
  - repeat split; discriminate.
Defined.

(** X3: on an input whose rank has layouts, a transposed convolution whose
    [dilations] attribute is not the list of as many ones as spatial axes
    fails with RuntimeError, after the weights have been transposed and
    weights and input split (the input transposed first when the accelerated
    path is unavailable): no group is convolved. *)
Theorem transposed_dilation_rejected B n input_dict x w d :
  resolves input_dict n 0 x →
  laid_out B x →
  resolves input_dict n 1 w →
  (∀ ks, attr_kernel_shape (attrs n) = Some ks → drop 2 (shape w) = Some <$> ks) →
  auto_pad_known n = true →
  attr_dilations (attrs n) = Some d →
  d ≠ times [1] (Z.of_nat (length (shape x)) - 2) →
  conv B n input_dict true
  = Run (OpTranspose :: partition_ops (supports_device B "CUDA")) (inl RuntimeError).
Proof.
  intros Hx Hl Hw Hk Hpad Hattr Hdil.
  rewrite (conv_resolved _ _ _ _ _ _ Hx Hl Hw Hk), bind_run_inr.
  unfold conv_with_locals. set (fr := frame_of B n x w).
  destruct (derive_pad_mode_transpose_known n fr (Input x) Hpad) as [pad_mode ->].
  rewrite bind_run_inr, andb_false_r, grouped_path_partition, bind_run_inr.
  assert (list_Z_eqb (dilations fr) (times [1] (spatial_size fr)) = false)
    as ->.
  { unfold list_Z_eqb, fr, frame_of. simpl. rewrite Hattr. simpl.
    by apply bool_decide_eq_false_2. }
  simpl. by rewrite app_nil_r.
Qed.

Lemma transposed_dilation_rejected_witness :
  conv accelerated
    (Node ["XT"; "WT"]
       (Attributes None None (Some [1; 2]) None None None None None))
    tensors true
  = Run (OpTranspose :: partition_ops (supports_device accelerated "CUDA"))
      (inl RuntimeError).
Proof.
  apply (transposed_dilation_rejected accelerated _ tensors XT WT [1; 2]).
  - exists "XT". split; reflexivity.
  - by eexists.
  - exists "WT". split; reflexivity.
  - intros ks [=].
  - reflexivity.
  - reflexivity.
  - discriminate.
Defined.

(** ** The operations of a call *)

Lemma emits_only_derive_pad_mode P n transpose fr x :
  P OpPad = true → emits_only P (derive_pad_mode n transpose fr x).
Proof.
  intros HP. unfold derive_pad_mode, OP_UNSUPPORTED_EXCEPT, get_padding_as_op.
  assert (emits_only P (emit OpPad)) as Hpad
    by (unfold emits_only; simpl; by rewrite HP).
  cbv zeta. emission; exact Hpad.
Qed.

Lemma forward_conv_with_locals B n input_dict fr x :
  emits_only forward_op (conv_with_locals B n input_dict false fr x).
Proof.
  unfold conv_with_locals.
  apply emits_only_bind; [by apply emits_only_derive_pad_mode|].
  intros [x' pad_mode]. destruct (_ && _).
  - unfold fast_path. emission.
  - apply emits_only_bind.
    + rewrite grouped_path_partition. apply emits_only_run_bind.
      * by destruct (support_cuda fr).
      * unfold conv_groups. emission.
    + intros [x'' convolved]. unfold reassemble. emission.
Qed.

Lemma not_convolution_conv_transpose_groups n fr pad_mode pairs x convolved :
  emits_only not_convolution
    (conv_transpose_groups n fr pad_mode pairs x convolved).
Proof.
  revert x convolved.
  induction pairs as [|[x' w] pairs IH]; intros x convolved; simpl; [done|].
  apply emits_only_bind; [|intros r; apply IH].
  unfold conv_transpose_group, remove_pads, process_dynamic_batch_size,
    process_dynamic_batch_size_unbound, handle_dynamic_batch_size.
  emission; apply emits_only_get_conv_func.
Qed.

Lemma transposed_conv_with_locals B n input_dict fr x :
  emits_only not_convolution (conv_with_locals B n input_dict true fr x).
Proof.
  unfold conv_with_locals.
  apply emits_only_bind; [by apply emits_only_derive_pad_mode|].
  intros [x' pad_mode]. rewrite andb_false_r.
  apply emits_only_bind.
  - rewrite grouped_path_partition. apply emits_only_run_bind.
    + by destruct (support_cuda fr).
    + destruct (negb _); [done|]. apply not_convolution_conv_transpose_groups.
  - intros [x'' convolved]. unfold reassemble. emission.
Qed.

(** X4: a convolution that is not transposed emits only transpositions,
    pads, splits, convolutions, a concatenation, the broadcast and the
    addition of the bias: never a transposed convolution, a slice or a
    lookup of a runtime shape.  A transposed convolution never emits the
    convolution primitive.  Both hold for failed runs too. *)
Theorem operations_by_kind B n input_dict :
  emits_only forward_op (conv B n input_dict false)
  ∧ emits_only not_convolution (conv B n input_dict true).
Proof.
  split; unfold conv;
    (emission; [apply emits_only_resolve_kernel_shape|]).
  - apply forward_conv_with_locals.
  - apply transposed_conv_with_locals.
Qed.

(** ** The attribute [pads] under an automatic padding *)

Lemma conv_transpose_groups_pads n p fr p1 p2 pad_mode pairs x convolved :
  String.eqb pad_mode "NOTSET" = false →
  conv_transpose_groups (with_pads p n) (set_pads p1 fr) pad_mode pairs x convolved
  = conv_transpose_groups n (set_pads p2 fr) pad_mode pairs x convolved.
Proof.
  intros H. revert x convolved.
  induction pairs as [|[x' w] pairs IH]; intros x convolved; simpl; [done|].
  assert (conv_transpose_group (with_pads p n) (set_pads p1 fr) pad_mode x' w
          = conv_transpose_group n (set_pads p2 fr) pad_mode x' w) as ->
    by (unfold conv_transpose_group; by rewrite H).
  apply bind_ext. intros r. apply IH.
Qed.

Lemma derive_pad_mode_automatic n transpose fr x a :
  attr_auto_pad (attrs n) = Some a →
  a = "SAME_UPPER" ∨ a = "VALID" ∨ a = "SAME_LOWER" →
  derive_pad_mode n transpose fr x = raise OpUnsupported
  ∨ ∃ pad_mode, derive_pad_mode n transpose fr x = Run [] (inr (x, pad_mode))
                ∧ String.eqb pad_mode "NOTSET" = false.
Proof.
  intros Ha H. unfold derive_pad_mode. rewrite Ha.
  destruct H as [-> | [-> | ->]]; simpl; [right; by eexists | right; by eexists |].
  destruct transpose; [by left | right; by eexists].
Qed.

Lemma conv_with_locals_pads B n input_dict transpose p fr p1 p2 x a :
  attr_auto_pad (attrs n) = Some a →
  a = "SAME_UPPER" ∨ a = "VALID" ∨ a = "SAME_LOWER" →
  conv_with_locals B (with_pads p n) input_dict transpose (set_pads p1 fr) x
  = conv_with_locals B n input_dict transpose (set_pads p2 fr) x.
Proof.
  intros Ha H. unfold conv_with_locals.
  assert (derive_pad_mode (with_pads p n) transpose (set_pads p1 fr) x
          = derive_pad_mode n transpose (set_pads p2 fr) x) as ->.
  { unfold derive_pad_mode. simpl attr_auto_pad. rewrite Ha.
    by destruct H as [-> | [-> | ->]]. }
  destruct (derive_pad_mode_automatic n transpose (set_pads p2 fr) x a Ha H)
    as [-> | (pad_mode & -> & Hmode)]; [done|].
  rewrite !bind_run_inr.
  change (attr_group (attrs (with_pads p n))) with (attr_group (attrs n)).
  destruct (_ && _); [done|].
  rewrite !grouped_path_partition. destruct transpose.
  - change (dilations (set_pads p1 fr)) with (dilations (set_pads p2 fr)).
    change (spatial_size (set_pads p1 fr)) with (spatial_size (set_pads p2 fr)).
    by rewrite (conv_transpose_groups_pads n p fr p1 p2 _ _ _ _ Hmode).
  - done.
Qed.

(** X5: when [auto_pad] is SAME_UPPER, VALID or SAME_LOWER, the [pads]
    attribute is not consulted: whatever it is, the run is the same,
    transposed or not. *)
Theorem pads_ignored_under_auto_pad B n input_dict transpose p a :
  attr_auto_pad (attrs n) = Some a →
  a = "SAME_UPPER" ∨ a = "VALID" ∨ a = "SAME_LOWER" →
  conv B (with_pads p n) input_dict transpose = conv B n input_dict transpose.
Proof.
  intros Ha H. unfold conv.
  change (input input_dict (with_pads p n)) with (input input_dict n).
  apply bind_ext. intros x. apply bind_ext. intros [storage compute].
  apply bind_ext. intros in_weights.
  change (resolve_kernel_shape (with_pads p n) in_weights)
    with (resolve_kernel_shape n in_weights).
  apply bind_ext. intros kernel_shape. apply bind_ext. intros weights.
  match goal with
  | |- conv_with_locals _ _ _ _
         (Frame ?f1 ?f2 ?f3 ?f4 ?f5 ?f6 ?f7 ?f8 ?f9 ?f10 ?f11 ?p1) _
       = conv_with_locals _ _ _ _ (Frame _ _ _ _ _ _ _ _ _ _ _ ?p2) _ =>
      apply (conv_with_locals_pads B n input_dict transpose p
               (Frame f1 f2 f3 f4 f5 f6 f7 f8 f9 f10 f11 p2) p1 p2 _ a Ha H)
  end.
Qed.

Lemma pads_ignored_under_auto_pad_witness :
  conv fallback (with_pads (Some [3; 3; 3; 3]) valid_transposed) tensors true
  = conv fallback valid_transposed tensors true.
Proof.
  apply (pads_ignored_under_auto_pad fallback valid_transposed tensors true
           (Some [3; 3; 3; 3]) "VALID").
  - reflexivity.
  - right. by left.
Defined.

(** ** The returned tensor *)




(** ** Runs of a convolution that is not transposed *)






(** The scenario of the specification: input [1,3,8,8], weights [4,3,3,3],
    strides [1,1], pads all zero, one group. *)
Example plain_convolution_run :
  conv accelerated
    (Node ["X"; "W"]
       (Attributes None (Some [1; 1]) None (Some [0; 0; 0; 0]) (Some 1) None None
          None))
    tensors false
  = Run [OpTranspose; OpConvolution]
      (inr [Convolution (Input X) (Transpose (Input W) [2; 3; 1; 0])
              "VALID" [1; 1] [1; 1] "NCHW"]).
Proof. vm_compute. reflexivity. Qed.



(** ** The permuted weights *)

Lemma fmap_py_nth_range_from {A} (l : list (option A)) :
  (λ p, default None (py_nth l p)) <$> range_from 2 (Z.of_nat (length l))
  = drop 2 l.
Proof.
  apply list_eq. intros i. unfold range_from.
  rewrite list_lookup_fmap, list_lookup_fmap, lookup_drop.
  destruct (decide (i < Z.to_nat (Z.of_nat (length l) - 2))%nat) as [Hi|Hi].
  - rewrite lookup_seq_lt by done. simpl. rewrite py_nth_nonneg by lia.
    replace (Z.to_nat (2 + Z.of_nat i)) with (2 + i)%nat by lia.
    destruct (l !! (2 + i)%nat) as [v|] eqn:E; [done|].
    apply lookup_ge_None in E. lia.
  - rewrite lookup_seq_ge by lia. simpl. symmetry. apply lookup_ge_None. lia.
Qed.

(** X9: the permutation of lines 42-45 brings the dimensions of the weights
    from index 2 on to the front and the first two, swapped, to the end: for
    weights of shape [w0, w1, k...] the permuted weights have the shape
    [k..., w1, w0], and the channel extent that a transposed convolution
    reads at index -2 is [w1]. *)
Theorem permuted_weights_shape B n x w w0 w1 ks :
  shape w = w0 :: w1 :: ks →
  let fr := frame_of B n x w in
  get_shape (weights fr) = ks ++ [w1; w0]
  ∧ kernel_shape fr = ks
  ∧ py_nth (get_shape (weights fr)) (-2) = Some w1.
Proof.
  intros Hw fr. assert (get_shape (weights fr) = ks ++ [w1; w0]) as Hs.
  { unfold fr, frame_of. cbn [weights get_shape]. rewrite fmap_app.
    etrans;
      [apply (f_equal (λ l, l ++ _));
       exact (fmap_py_nth_range_from (A := Z) (shape w))|].
    rewrite Hw. cbn [drop fmap list_fmap]. rewrite !py_nth_nonneg by lia.
    done. }
  split; [done|]. split; [unfold fr, frame_of; simpl; by rewrite Hw|].
  rewrite Hs. unfold py_nth. rewrite length_app. simpl.
  destruct (Z.ltb_spec (-2) 0) as [_|?]; [|lia].
  destruct (Z.leb_spec 0 (-2 + Z.of_nat (length ks + 2))) as [_|?]; [|lia].
  destruct (Z.ltb_spec (-2 + Z.of_nat (length ks + 2))
              (Z.of_nat (length ks + 2))) as [_|?]; [|lia].
  simpl. replace (Z.to_nat (-2 + Z.of_nat (length ks + 2))) with (length ks) by lia.
  by rewrite list_lookup_middle.
Qed.

Lemma permuted_weights_shape_witness :
  let fr := frame_of accelerated valid_transposed XT WT in
  get_shape (weights fr) = [Some 3; Some 3] ++ [Some 2; Some 4]
  ∧ kernel_shape fr = [Some 3; Some 3]
  ∧ py_nth (get_shape (weights fr)) (-2) = Some (Some 2).
Proof.
  apply (permuted_weights_shape accelerated valid_transposed XT WT (Some 4)
           (Some 2) [Some 3; Some 3]).
  reflexivity.
Defined.

(** ** Dynamic batch size *)

Lemma process_dynamic_batch_size_run x (l : list dim) i s :
  outcome (process_dynamic_batch_size x l i) = inr s →
  match py_nth l i with
  | Some None =>
      s = Stack (<[Z.to_nat (py_index (length l) i) := ShapeAt x i]> (Lit <$> l))
  | _ => s = ShapeList l
  end.
Proof.
  unfold process_dynamic_batch_size, handle_dynamic_batch_size, getitem, setitem.
  destruct (py_nth l i) as [[z|]|] eqn:E; [by intros [= <-] | | done].
  rewrite bind_mret, length_fmap. fold (py_index (length l) i).
  destruct (_ && _); [|done]. by intros [= <-].
Qed.

Lemma conv_transpose_group_notset_shape n fr x weight r :
  outcome (conv_transpose_group n fr "NOTSET" x weight) = inr r →
  ∃ f st batch c extents os begin size,
    r = Slice (output_padded n fr
                 (ConvTranspose f x weight os st "VALID" (compute_format fr)))
          begin size
    ∧ py_nth (x_shape fr) (find (storage_format fr) "N") = Some batch
    ∧ py_nth (get_shape (weights fr)) (-2) = Some c
    ∧ batch_substituted fr x (py_insert (compute_c_idx fr) c (batch :: extents)) os.
Proof.
  intros H. unfold conv_transpose_group in H. simpl String.eqb in H. cbv iota in H.
  apply outcome_bind_inv in H as (xs & _ & H).
  apply outcome_bind_inv in H as (batch & Hbatch%outcome_getitem_inv & H).
  apply outcome_bind_inv in H as (extents & _ & H).
  apply outcome_bind_inv in H as (c & Hc%outcome_getitem_inv & H).
  apply outcome_bind_inv in H as (os & Hos%process_dynamic_batch_size_run & H).
  apply outcome_bind_inv in H as ([f st] & _ & H).
  apply outcome_bind_inv in H as (conv_rs & Hconv & H). injection Hconv as <-.
  apply outcome_bind_inv in H as (padded & Hpadded & H).
  assert (padded = output_padded n fr
            (ConvTranspose f x weight os st "VALID" (compute_format fr))) as ->.
  { unfold output_padded.
    destruct (attr_output_padding (attrs n)), (attr_output_shape (attrs n));
      by injection Hpadded as <-. }
  apply remove_pads_inv in H as (size & -> & _).
  by exists f, st, batch, c, extents, os, (crop_begin fr), size.
Qed.

(** X10: lines 163-171, in a call.  In a transposed convolution with
    explicit pads, the shape argument of the primitive of every group is
    made of the batch extent of the input, the spatial extents and, at the
    channel index, the channels of the weights.  When its entry at the batch
    index is known it is that list; when it is not, it is the stack of that
    list with, in place of that entry, the runtime extent of the input slice
    of that very group, all the other entries being the static ones. *)
Theorem runtime_batch_in_shape_argument B n input_dict x w t out :
  resolves input_dict n 0 x →
  resolves input_dict n 1 w →
  attr_auto_pad (attrs n) = None ∨ attr_auto_pad (attrs n) = Some "NOTSET" →
  conv B n input_dict true = Run t (inr out) →
  let fr := frame_of B n x w in
  let group := default 1 (attr_group (attrs n)) in
  ∃ x_last convolved core,
    out = [to_storage B fr core]
    ∧ concat_and_bias input_dict n fr x_last convolved core
    ∧ Forall2 (λ p r, ∃ f st batch c extents os begin size,
                 r = Slice (output_padded n fr
                              (ConvTranspose f p.1 p.2 os st "VALID"
                                 (compute_format fr)))
                       begin size
                 ∧ py_nth (x_shape fr) (find (storage_format fr) "N") = Some batch
                 ∧ py_nth (get_shape (weights fr)) (-2) = Some c
                 ∧ batch_substituted fr p.1
                     (py_insert (compute_c_idx fr) c (batch :: extents)) os)
        (zip (input_groups B fr (Input x) group) (weight_groups fr group))
        convolved.
Proof.
  intros Hx Hw Hpad Hrun fr group.
  assert (outcome (conv B n input_dict true) = inr out) as Hout
    by (by rewrite Hrun).
  destruct (conv_transposed_inv _ _ _ _ _ _ Hx Hw Hout)
    as (pad_mode & x_last & convolved & Hd & Hdil & Hloop & Hre).
  fold fr group in Hd, Hdil, Hloop, Hre.
  rewrite (derive_pad_mode_notset n fr (Input x) Hpad) in Hd. injection Hd as <-.
  apply conv_transpose_groups_inv in Hloop as (_ & rs & -> & Hrs).
  apply reassemble_inv in Hre as (core & -> & Hcore). simpl in Hcore.
  exists x_last, rs, core. split; [done|]. split; [done|].
  eapply Forall2_impl; [exact Hrs|]. intros [xk wk] r Hr.
  by apply conv_transpose_group_notset_shape in Hr.
Qed.

Lemma runtime_batch_in_shape_argument_witness :
  let fr := frame_of accelerated padded_transposed XTdyn WT in
  let group := default 1 (attr_group (attrs padded_transposed)) in
  let x0 := SplitOut (Input XTdyn) 1 1 0 in
  let out :=
    [Concat
       [Slice
          (Pad
             (ConvTranspose conv2d_transpose x0
                (SplitOut (Transpose (Input WT) [2; 3; 1; 0]) 1 (-1) 0)
                (Stack [ShapeAt x0 0; Lit (Some 2); Lit (Some 11); Lit (Some 11)])
                (StridesList [1; 1; 2; 2]) "VALID" "NCHW")
             [[0; 0]; [0; 0]; [0; 1]; [0; 1]])
          [0; 0; 1; 1]
          (Stack [ShapeAt x0 0; Lit (Some 2); Lit (Some 10); Lit (Some 10)])]
       1] in
  ∃ x_last convolved core,
    out = [to_storage accelerated fr core]
    ∧ concat_and_bias tensors padded_transposed fr x_last convolved core
    ∧ Forall2 (λ p r, ∃ f st batch c extents os begin size,
                 r = Slice (output_padded padded_transposed fr
                              (ConvTranspose f p.1 p.2 os st "VALID"
                                 (compute_format fr)))
                       begin size
                 ∧ py_nth (x_shape fr) (find (storage_format fr) "N") = Some batch
                 ∧ py_nth (get_shape (weights fr)) (-2) = Some c
                 ∧ batch_substituted fr p.1
                     (py_insert (compute_c_idx fr) c (batch :: extents)) os)
        (zip (input_groups accelerated fr (Input XTdyn) group)
           (weight_groups fr group))
        convolved.
Proof.
  apply (runtime_batch_in_shape_argument accelerated padded_transposed tensors
           XTdyn WT
           [OpTranspose; OpSplit; OpSplit; OpShape; OpStridedSlice; OpPack;
            OpConvTranspose; OpPad; OpShape; OpStridedSlice; OpPack; OpSlice;
            OpConcat]).
  - exists "XTdyn". split; reflexivity.
  - exists "WT". split; reflexivity.
  - left. reflexivity.
  - vm_compute. reflexivity.
Defined.

(** ** The extents of a transposed convolution with explicit pads *)

Lemma py_insert_zip_with {A B C} (f : A → B → C) i a b l k :
  length l = length k →
  zip_with f (py_insert i a l) (py_insert i b k)
  = py_insert i (f a b) (zip_with f l k).
Proof.
  intros H. unfold py_insert. rewrite length_zip_with, <- H, Nat.min_id.
  rewrite zip_with_app by (by rewrite !length_take, H).
  simpl. by rewrite zip_with_take, zip_with_drop.
Qed.

Lemma Forall2_py_insert_inv {A B} (P : A → B → Prop) i a l k :
  Forall2 P (py_insert i a l) k →
  ∃ b k', k = py_insert i b k' ∧ P a b ∧ Forall2 P l k'.
Proof.
  unfold py_insert.
  set (j := λ n : nat,
         Z.to_nat (if i <? 0 then Z.max 0 (i + Z.of_nat n) else Z.min i (Z.of_nat n))).
  change (Forall2 P (take (j (length l)) l ++ a :: drop (j (length l)) l) k →
          ∃ b k', k = take (j (length k')) k' ++ b :: drop (j (length k')) k'
                  ∧ P a b ∧ Forall2 P l k').
  intros H.
  apply Forall2_app_inv_l in H as (k1 & k2 & H1 & H2 & ->).
  apply Forall2_cons_inv_l in H2 as (b & k2' & Hb & H2 & ->).
  exists b, (k1 ++ k2').
  assert (Forall2 P l (k1 ++ k2')) as Hl.
  { rewrite <- (take_drop (j (length l)) l). by apply Forall2_app. }
  split; [|done].
  rewrite <- (Forall2_length _ _ _ Hl).
  pose proof (Forall2_length _ _ _ H1) as Hlen. rewrite length_take in Hlen.
  assert (j (length l) ≤ length l)%nat as Hj.
  { unfold j. cbv beta. destruct (Z.ltb_spec i 0); lia. }
  by rewrite take_app_length', drop_app_length' by lia.
Qed.

Lemma padded_dim_zero d : padded_dim d [0; 0] = d.
Proof. destruct d as [z|]; simpl; [f_equal; lia | done]. Qed.

(** The size of the slice, axis by axis, for a well-formed layout. *)
Lemma crop_sizes_spatial fr x conv_rs size c batch extents :
  layout_well_formed fr →
  get_shape conv_rs = py_insert (compute_c_idx fr) c (batch :: extents) →
  length extents = length (chars (spatial_format fr)) →
  crop_sizes fr x conv_rs size →
  ∃ finals,
    static_shape size = py_insert (compute_c_idx fr) c (batch :: finals)
    ∧ length finals = length extents
    ∧ ∀ (i : nat) (e v : dim),
        extents !! i = Some e → finals !! i = Some v →
        ∃ e' p q,
          e = Some e'
          ∧ py_nth (pads fr) (Z.of_nat i) = Some p
          ∧ py_nth (pads fr) (Z.of_nat i + spatial_size fr) = Some q
          ∧ v = Some (e' - p - q).
Proof.
  intros (Hfmt & Hnd & Hsp & Hlen) Hshape HlenE [Hsizes _].
  rewrite Hfmt, Hshape in Hsizes.
  rewrite py_insert_zip_with in Hsizes by (simpl; lia).
  apply Forall2_py_insert_inv in Hsizes as (c' & k' & Hstatic & Hc & Hrest).
  unfold crop_size in Hc. simpl in Hc. subst c'.
  cbn [zip_with] in Hrest.
  apply Forall2_cons_inv_l in Hrest as (b' & finals & Hb & Hrest & ->).
  unfold crop_size in Hb. simpl in Hb. subst b'.
  exists finals. split; [done|].
  pose proof (Forall2_length _ _ _ Hrest) as Hl. rewrite length_zip_with in Hl.
  split; [lia|]. intros i e v He Hv.
  destruct (lookup_lt_is_Some_2 (chars (spatial_format fr)) i) as [d Hd].
  { pose proof (lookup_lt_Some _ _ _ He). lia. }
  assert (zip (chars (spatial_format fr)) extents !! i = Some (d, e)) as Hde.
  { apply lookup_zip_with_Some. by exists d, e. }
  pose proof (Forall2_lookup_lr _ _ _ _ _ _ Hrest Hde Hv) as Hcrop.
  unfold crop_size in Hcrop. simpl in Hcrop.
  rewrite Forall_forall in Hsp.
  rewrite (Hsp d) in Hcrop by by eapply list_elem_of_lookup_2.
  destruct Hcrop as (e' & p & q & -> & Hp & Hq & ->).
  unfold find in Hp, Hq. rewrite (find_from_lookup _ _ 0 i Hnd Hd) in Hp, Hq.
  by exists e', p, q.
Qed.

Lemma get_shape_output_padded n fr conv_rs c batch (extents : list dim) :
  attr_output_shape (attrs n) = None →
  (∀ output_padding, attr_output_padding (attrs n) = Some output_padding →
                     length output_padding = length extents) →
  get_shape conv_rs = py_insert (compute_c_idx fr) c (batch :: extents) →
  ∃ padded,
    get_shape (output_padded n fr conv_rs)
    = py_insert (compute_c_idx fr) c (batch :: padded)
    ∧ length padded = length extents
    ∧ ∀ (i : nat) (e v : dim),
        extents !! i = Some e → padded !! i = Some v →
        v = (λ z, z + output_padding_at n (Z.of_nat i)) <$> e.
Proof.
  intros Hos Hop Hshape. unfold output_padded, output_padding_at. rewrite Hos.
  destruct (attr_output_padding (attrs n)) as [op|].
  - specialize (Hop op eq_refl). simpl get_shape. rewrite Hshape.
    rewrite py_insert_zip_with by (simpl; rewrite length_fmap; lia).
    cbn [zip_with]. rewrite !padded_dim_zero.
    eexists. split; [done|]. split; [rewrite length_zip_with, length_fmap; lia|].
    intros i e v He Hv.
    apply lookup_zip_with_Some in Hv as (e0 & row & -> & He0 & Hrow).
    rewrite list_lookup_fmap in Hrow.
    rewrite py_nth_nonneg, Nat2Z.id by lia.
    destruct (op !! i) as [p|]; [|done]. injection Hrow as <-.
    assert (e0 = e) as -> by congruence.
    destruct e as [z|]; simpl; [f_equal; lia | done].
  - exists extents. split; [done|]. split; [done|].
    intros i e v He Hv. assert (v = e) as -> by congruence.
    destruct e as [z|]; simpl; [f_equal; lia | done].
Qed.

Lemma py_nth_elem_of {A} (l : list A) i a : py_nth l i = Some a → a ∈ l.
Proof.
  unfold py_nth. destruct (_ && _); [|done]. apply list_elem_of_lookup_2.
Qed.

Lemma py_nth_times_unit n i d : py_nth (times [1] n) i = Some d → d = 1.
Proof.
  intros H%py_nth_elem_of. unfold times in H.
  apply list_elem_of_join in H as (l & Hd & Hl).
  apply elem_of_replicate_inv in Hl as ->.
  by apply list_elem_of_singleton in Hd.
Qed.

Lemma lookup_range n (i : nat) z : range n !! i = Some z → z = Z.of_nat i.
Proof.
  unfold range. rewrite list_lookup_fmap. intros H.
  destruct (seq 0 (Z.to_nat n) !! i) as [k|] eqn:E; [|done].
  apply lookup_seq in E as [-> _]. by injection H as <-.
Qed.

Lemma length_range n : length (range n) = Z.to_nat n.
Proof. unfold range. by rewrite length_fmap, length_seq. Qed.

(** X12: the docstring of [conv] (lines 20-25), in the mode of line 149.  In
    a transposed convolution with explicit pads and no [output_shape], over a
    well-formed layout, every group that is translated is a slice whose
    size has, at each spatial axis [i], the extent
    [strides[i] * (input_shape[i] - 1) + kernel_shape[i] + output_padding[i]
     - pads[i] - pads[spatial_size + i]]. *)
Theorem explicit_pads_declared_extents B n input_dict x w t out :
  resolves input_dict n 0 x →
  resolves input_dict n 1 w →
  attr_auto_pad (attrs n) = None ∨ attr_auto_pad (attrs n) = Some "NOTSET" →
  attr_output_shape (attrs n) = None →
  (∀ output_padding,
     attr_output_padding (attrs n) = Some output_padding →
     Z.of_nat (length output_padding) = spatial_size (frame_of B n x w)) →
  layout_well_formed (frame_of B n x w) →
  conv B n input_dict true = Run t (inr out) →
  let fr := frame_of B n x w in
  ∃ x_last convolved core,
    out = [to_storage B fr core]
    ∧ concat_and_bias input_dict n fr x_last convolved core
    ∧ Forall (λ r, ∃ xs finals,
                x_spatial_shape fr xs
                ∧ sliced_to fr finals r
                ∧ Forall2 (declared_extent n fr xs) (range (spatial_size fr)) finals)
        convolved.
Proof.
  intros Hx Hw Hpad Hos Hop Hwf Hrun fr.
  assert (outcome (conv B n input_dict true) = inr out) as Hout
    by (by rewrite Hrun).
  destruct (conv_transposed_inv _ _ _ _ _ _ Hx Hw Hout)
    as (pad_mode & x_last & convolved & Hd & Hdil & Hloop & Hre).
  fold fr in Hd, Hdil, Hloop, Hre, Hop, Hwf.
  rewrite (derive_pad_mode_notset n fr (Input x) Hpad) in Hd. injection Hd as <-.
  apply conv_transpose_groups_inv in Hloop as (_ & rs & -> & Hrs).
  apply reassemble_inv in Hre as (core & -> & Hcore). simpl in Hcore.
  exists x_last, rs, core. split; [done|]. split; [done|].
  eapply Forall2_Forall_r; [exact Hrs|]. apply Forall_forall. intros [xk wk] _ r Hr.
  apply conv_transpose_group_notset in Hr
    as (xs & extents & conv_rs & size & Hxs & Hext & Hcall & -> & Hsize).
  destruct Hcall as (f & os & st & batch & c & -> & _ & Hbatch & Hc & Hstatic).
  cbn [fst snd] in Hsize.
  pose proof (notset_extents_inferred _ _ _ _ Hos Hext) as Hform.
  pose proof (Forall2_length _ _ _ Hform) as Hlen. rewrite length_range in Hlen.
  pose proof Hwf as (_ & _ & _ & Hsp).
  destruct (get_shape_output_padded n fr
              (ConvTranspose f xk wk os st "VALID" (compute_format fr))
              c batch extents Hos) as (padded & Hshape & Hlenp & Hpadded).
  { intros op Hop'. apply Hop in Hop'. unfold dim in *. lia. }
  { done. }
  destruct (crop_sizes_spatial fr xk _ size c batch padded Hwf Hshape)
    as (finals & Hfinal & Hlenf & Hfinals); [unfold dim in *; lia | done |].
  exists xs, finals. split; [done|]. split.
  { by eexists _, _, size, batch, c. }
  apply Forall2_same_length_lookup_2; [rewrite length_range; unfold dim in *; lia|].
  intros i z v Hz Hv. apply lookup_range in Hz as ->.
  pose proof (lookup_lt_Some _ _ _ Hv) as Hi.
  destruct (lookup_lt_is_Some_2 extents i) as [e He]; [unfold dim in *; lia|].
  destruct (lookup_lt_is_Some_2 padded i) as [pe Hpe]; [unfold dim in *; lia|].
  destruct (Forall2_lookup_r _ _ _ _ _ Hform He) as (z & Hz & Hext_i).
  apply lookup_range in Hz as ->.
  destruct Hext_i as (s & xi & k & d & Hs & Hxi & Hk & Hdi & ->).
  rewrite Hdil in Hdi. apply py_nth_times_unit in Hdi as ->.
  rewrite (Hpadded i _ _ He Hpe) in Hpe.
  destruct (Hfinals i _ _ Hpe Hv) as (e' & p & q & He' & Hp & Hq & ->).
  simpl in He'. injection He' as <-.
  exists s, xi, k, p, q. repeat split; try done. f_equal. lia.
Qed.

Lemma explicit_pads_declared_extents_witness :
  let fr := frame_of accelerated padded_transposed XTdyn WT in
  let x0 := SplitOut (Input XTdyn) 1 1 0 in
  let out :=
    [Concat
       [Slice
          (Pad
             (ConvTranspose conv2d_transpose x0
                (SplitOut (Transpose (Input WT) [2; 3; 1; 0]) 1 (-1) 0)
                (Stack [ShapeAt x0 0; Lit (Some 2); Lit (Some 11); Lit (Some 11)])
                (StridesList [1; 1; 2; 2]) "VALID" "NCHW")
             [[0; 0]; [0; 0]; [0; 1]; [0; 1]])
          [0; 0; 1; 1]
          (Stack [ShapeAt x0 0; Lit (Some 2); Lit (Some 10); Lit (Some 10)])]
       1] in
  ∃ x_last convolved core,
    out = [to_storage accelerated fr core]
    ∧ concat_and_bias tensors padded_transposed fr x_last convolved core
    ∧ Forall (λ r, ∃ xs finals,
                x_spatial_shape fr xs
                ∧ sliced_to fr finals r
                ∧ Forall2 (declared_extent padded_transposed fr xs)
                    (range (spatial_size fr)) finals)
        convolved.
Proof.
  apply (explicit_pads_declared_extents accelerated padded_transposed tensors
           XTdyn WT
           [OpTranspose; OpSplit; OpSplit; OpShape; OpStridedSlice; OpPack;
            OpConvTranspose; OpPad; OpShape; OpStridedSlice; OpPack; OpSlice;
            OpConcat]).
  - exists "XTdyn". split; reflexivity.
  - exists "WT". split; reflexivity.
  - left. reflexivity.
  - reflexivity.
  - intros op [= <-]. reflexivity.
  - split; [reflexivity|]. split; [|split; [|reflexivity]].
    + apply (bool_decide_unpack _). vm_compute. exact I.
    + by repeat constructor.
  - vm_compute. reflexivity.
Defined.

Lemma lookup_enumerate {A} (l : list A) (i : nat) a :
  l !! i = Some a → enumerate l !! i = Some (Z.of_nat i, a).
Proof. intros H. unfold enumerate. by rewrite list_lookup_imap, H. Qed.

(** X13: lines 156-160 and 205-220.  In a transposed convolution with
    explicit pads and an [output_shape] whose last two entries are as many as
    the spatial axes, the [pads] that line 158 adds to the extents asked of
    the primitive are those the slice removes: over a well-formed layout,
    every group that is translated is a slice whose size has the entries of
    [output_shape] at the spatial axes. *)
Theorem output_shape_restored B n input_dict x w t out output_shape :
  resolves input_dict n 0 x →
  resolves input_dict n 1 w →
  attr_auto_pad (attrs n) = None ∨ attr_auto_pad (attrs n) = Some "NOTSET" →
  attr_output_shape (attrs n) = Some output_shape →
  Z.of_nat (length (last_two output_shape)) = spatial_size (frame_of B n x w) →
  layout_well_formed (frame_of B n x w) →
  conv B n input_dict true = Run t (inr out) →
  let fr := frame_of B n x w in
  ∃ x_last convolved core,
    out = [to_storage B fr core]
    ∧ concat_and_bias input_dict n fr x_last convolved core
    ∧ Forall (sliced_to fr (Some <$> last_two output_shape)) convolved.
Proof.
  intros Hx Hw Hpad Hos Hlast Hwf Hrun fr.
  assert (outcome (conv B n input_dict true) = inr out) as Hout
    by (by rewrite Hrun).
  destruct (conv_transposed_inv _ _ _ _ _ _ Hx Hw Hout)
    as (pad_mode & x_last & convolved & Hd & Hdil & Hloop & Hre).
  fold fr in Hd, Hdil, Hloop, Hre, Hlast, Hwf.
  rewrite (derive_pad_mode_notset n fr (Input x) Hpad) in Hd. injection Hd as <-.
  apply conv_transpose_groups_inv in Hloop as (_ & rs & -> & Hrs).
  apply reassemble_inv in Hre as (core & -> & Hcore). simpl in Hcore.
  exists x_last, rs, core. split; [done|]. split; [done|].
  eapply Forall2_Forall_r; [exact Hrs|]. apply Forall_forall. intros [xk wk] _ r Hr.
  apply conv_transpose_group_notset in Hr
    as (xs & extents & conv_rs & size & Hxs & Hext & Hcall & -> & Hsize).
  destruct Hcall as (f & os & st & batch & c & -> & _ & Hbatch & Hc & Hstatic).
  cbn [fst snd] in Hsize.
  assert (∀ cr, output_padded n fr cr = cr) as Hsame.
  { intros cr. unfold output_padded. rewrite Hos.
    by destruct (attr_output_padding (attrs n)). }
  rewrite Hsame in Hsize |- *.
  pose proof (notset_extents_given _ _ _ _ _ Hos Hext) as Hform.
  pose proof (Forall2_length _ _ _ Hform) as Hlen.
  unfold enumerate in Hlen. rewrite length_imap in Hlen.
  pose proof Hwf as (_ & _ & _ & Hsp).
  destruct (crop_sizes_spatial fr xk
              (ConvTranspose f xk wk os st "VALID" (compute_format fr))
              size c batch extents Hwf Hstatic)
    as (finals & Hfinal & Hlenf & Hfinals); [unfold dim in *; lia | done |].
  assert (finals = Some <$> last_two output_shape) as <-;
    [|by eexists _, _, size, batch, c].
  apply (list_eq_same_length _ _ (length finals));
    [rewrite length_fmap; unfold dim in *; lia | done |].
  intros i v y Hi Hv Hy. rewrite list_lookup_fmap in Hy.
  destruct (last_two output_shape !! i) as [s|] eqn:Hs; [|done].
  injection Hy as <-. apply lookup_enumerate in Hs.
  destruct (Forall2_lookup_l _ _ _ _ _ Hform Hs) as (e & He & p & q & Hp & Hq & ->).
  destruct (Hfinals i _ _ He Hv) as (e' & p' & q' & He' & Hp' & Hq' & ->).
  injection He' as <-. rewrite (Z.add_comm (spatial_size fr)) in Hq.
  assert (p' = p) as -> by congruence. assert (q' = q) as -> by congruence.
  f_equal. lia.
Qed.

Lemma output_shape_restored_witness :
  let fr := frame_of accelerated shaped_transposed XTdyn WT in
  let x0 := SplitOut (Input XTdyn) 1 1 0 in
  let out :=
    [Concat
       [Slice
          (ConvTranspose conv2d_transpose x0
             (SplitOut (Transpose (Input WT) [2; 3; 1; 0]) 1 (-1) 0)
             (Stack [ShapeAt x0 0; Lit (Some 2); Lit (Some 12); Lit (Some 12)])
             (StridesList [1; 1; 2; 2]) "VALID" "NCHW")
          [0; 0; 1; 1]
          (Stack [ShapeAt x0 0; Lit (Some 2); Lit (Some 10); Lit (Some 10)])]
       1] in
  ∃ x_last convolved core,
    out = [to_storage accelerated fr core]
    ∧ concat_and_bias tensors shaped_transposed fr x_last convolved core
    ∧ Forall (sliced_to fr (Some <$> last_two [10; 10])) convolved.
Proof.
  apply (output_shape_restored accelerated shaped_transposed tensors XTdyn WT
           [OpTranspose; OpSplit; OpSplit; OpShape; OpStridedSlice; OpPack;
            OpConvTranspose; OpShape; OpStridedSlice; OpPack; OpSlice; OpConcat]).
  - exists "XTdyn". split; reflexivity.
  - exists "WT". split; reflexivity.
  - left. reflexivity.
  - reflexivity.
  - reflexivity.
  - split; [reflexivity|]. split; [|split; [|reflexivity]].
    + apply (bool_decide_unpack _). vm_compute. exact I.
    + by repeat constructor.
  - vm_compute. reflexivity.
Defined.

(** ** An unknown batch size under an automatic padding *)

Lemma py_nth_py_insert_head {A} (i : Z) (a b : A) l :
  1 ≤ i → py_nth (py_insert i a (b :: l)) 0 = Some b.
Proof.
  intros Hi. rewrite py_nth_nonneg by lia. unfold py_insert.
  destruct (Z.ltb_spec i 0) as [?|_]; [lia|].
  destruct (Z.to_nat (Z.min i (Z.of_nat (length (b :: l))))) as [|j] eqn:E; [|done].
  simpl length in E. lia.
Qed.

Lemma conv_transpose_group_unbound n fr pad_mode x weight :
  String.eqb pad_mode "NOTSET" = false →
  find (storage_format fr) "N" = 0 →
  1 ≤ compute_c_idx fr →
  py_nth (x_shape fr) 0 = Some None →
  ∃ e, conv_transpose_group n fr pad_mode x weight = Run [] (inl e)
       ∧ python_error e = true.
Proof.
  intros Hmode HN Hc Hbatch.
  assert (wp (conv_transpose_group n fr pad_mode x weight)
            (λ t r, t = [] ∧ ∃ e, r = inl e ∧ python_error e = true)) as H.
  { unfold conv_transpose_group. rewrite Hmode, HN.
    apply wp_bind, wp_quiet; [effects | by eauto | intros xs _].
    assert (getitem (x_shape fr) 0 = mret None) as ->
      by (unfold getitem; by rewrite Hbatch).
    rewrite bind_mret.
    apply wp_bind, wp_quiet; [effects | by eauto | intros extents _].
    apply wp_bind, wp_quiet; [effects | by eauto | intros c _].
    unfold process_dynamic_batch_size_unbound, getitem. cbn [app].
    rewrite py_nth_py_insert_head by done. rewrite bind_mret.
    unfold wp. simpl. eauto. }
  unfold wp in H. destruct (conv_transpose_group _ _ _ _ _) as [t r].
  simpl in H. destruct H as [-> (e & -> & He)]. by exists e.
Qed.

(** X11: lines 223-245.  [handle_dynamic_batch_size] is bound by the [def]
    of line 163, inside the branch of line 149; the branch of line 223 calls
    it at line 244.  So a transposed convolution with [auto_pad] VALID or
    SAME_UPPER whose input has no static batch size (and a rank with
    layouts) is never translated: once the input and the weights are
    partitioned, the call fails with an error of the interpreter. *)
Theorem automatic_padding_needs_static_batch B n input_dict x w :
  resolves input_dict n 0 x →
  laid_out B x →
  resolves input_dict n 1 w →
  (∀ ks, attr_kernel_shape (attrs n) = Some ks → drop 2 (shape w) = Some <$> ks) →
  attr_auto_pad (attrs n) = Some "VALID"
  ∨ attr_auto_pad (attrs n) = Some "SAME_UPPER" →
  let fr := frame_of B n x w in
  dilations fr = times [1] (spatial_size fr) →
  1 ≤ default 1 (attr_group (attrs n)) →
  find (storage_format fr) "N" = 0 →
  1 ≤ compute_c_idx fr →
  py_nth (shape x) 0 = Some None →
  ∃ e, conv B n input_dict true
       = Run (OpTranspose :: partition_ops (supports_device B "CUDA")) (inl e)
       ∧ python_error e = true.
Proof.
  intros Hx Hl Hw Hk Hauto fr Hdil Hgroup HN Hc Hbatch.
  rewrite (conv_resolved _ _ _ _ _ _ Hx Hl Hw Hk), bind_run_inr.
  fold fr. unfold conv_with_locals.
  destruct (auto_pad_mode n fr (Input x) Hauto) as (pad_mode & -> & Hmode).
  rewrite bind_run_inr, andb_false_r, grouped_path_partition, bind_run_inr.
  unfold list_Z_eqb. rewrite bool_decide_eq_true_2 by done. cbn [negb].
  unfold input_groups, weight_groups.
  destruct (Z.to_nat (default 1 (attr_group (attrs n)))) as [|k] eqn:E; [lia|].
  cbn [seq fmap list_fmap zip_with conv_transpose_groups].
  destruct (conv_transpose_group_unbound n fr pad_mode
              (SplitOut (compute_input B fr (Input x))
                 (default 1 (attr_group (attrs n))) (channel_axis fr) 0)
              (SplitOut (weights fr) (default 1 (attr_group (attrs n))) (-1) 0)
              Hmode HN Hc Hbatch) as (e & -> & He).
  exists e. split; [|done]. simpl. by rewrite app_nil_r.
Qed.

Lemma automatic_padding_needs_static_batch_witness :
  ∃ e, conv accelerated
         (Node ["XTdyn"; "WT"]
            (Attributes None (Some [2; 2]) None None None (Some "SAME_UPPER") None
               None))
         tensors true
       = Run (OpTranspose :: partition_ops (supports_device accelerated "CUDA"))
           (inl e)
       ∧ python_error e = true.
Proof.
  apply (automatic_padding_needs_static_batch accelerated _ tensors XTdyn WT).
  - exists "XTdyn". split; reflexivity.
  - by eexists.
  - exists "WT". split; reflexivity.
  - intros ks [=].
  - right. reflexivity.
  - reflexivity.
  - simpl. lia.
  - reflexivity.
  - vm_compute. discriminate.
  - reflexivity.
Defined.
